(** * sublime-gitignorer: a shallow embedding of [gitignore_plugin.py]

    The plugin asks git which paths of the open folders are ignored and
    appends them to a list of patterns kept in the editor's preferences.
    The Python functions are embedded as Rocq functions of the same names.
    Everything the plugin reaches outside itself (the editor, the file
    system, the git executable, the platform) is gathered in a [host]
    record; exceptions and spawned processes are explicit. *)

From Stdlib Require Import List NArith ZArith Bool Lia Permutation.
From Stdlib Require Import Strings.String Strings.Ascii.
Import ListNotations.

Set Implicit Arguments.
Set Warnings "-register-all,-abstract-large-number".
Local Open Scope N_scope.

(** ** Text

    A Python [str] is a sequence of code points; a [bytes] value is a
    sequence of numbers below 256. *)

Module Py.

Definition char := N.
Definition str := list char.
Definition bytes := list N.

(** An ASCII literal, read as a [str] (or as [bytes]). *)
Fixpoint u (s : string) : str :=
  match s with
  | EmptyString => []
  | String a r => N_of_ascii a :: u r
  end.

Fixpoint str_eqb (a b : str) : bool :=
  match a, b with
  | [], [] => true
  | x :: a', y :: b' => N.eqb x y && str_eqb a' b'
  | _, _ => false
  end.

Definition str_eq_dec : forall a b : str, {a = b} + {a <> b} :=
  list_eq_dec N.eq_dec.

(** [c in s] for a list of strings. *)
Definition mem (x : str) (l : list str) : bool := existsb (str_eqb x) l.

(** [_PyUnicode_IsWhitespace]: the code points [str.isspace] and
    [str.strip] treat as white space. *)
Definition is_whitespace (c : char) : bool :=
  ((9 <=? c) && (c <=? 13)) || ((28 <=? c) && (c <=? 32))
  || (c =? 133) || (c =? 160) || (c =? 5760)
  || ((8192 <=? c) && (c <=? 8202))
  || (c =? 8232) || (c =? 8233) || (c =? 8239) || (c =? 8287)
  || (c =? 12288).

(** [s.isspace()]: every character is white space and there is one. *)
Definition isspace (s : str) : bool :=
  match s with
  | [] => false
  | _ => forallb is_whitespace s
  end.

(** [s.lstrip(chars)], [s.rstrip(chars)] with the set of characters given
    as a predicate. *)
Fixpoint lstrip_by (p : char -> bool) (s : str) : str :=
  match s with
  | [] => []
  | c :: r => if p c then lstrip_by p r else s
  end.

Fixpoint rstrip_by (p : char -> bool) (s : str) : str :=
  match s with
  | [] => []
  | c :: r =>
      match rstrip_by p r with
      | [] => if p c then [] else [c]
      | r' => c :: r'
      end
  end.

(** [s.strip()] *)
Definition strip (s : str) : str :=
  rstrip_by is_whitespace (lstrip_by is_whitespace s).

(** [s.rstrip(u'/')] *)
Definition slash : char := 47.
Definition backslash : char := 92.
Definition colon : char := 58.
Definition newline : char := 10.

Definition rstrip_slash (s : str) : str := rstrip_by (N.eqb slash) s.

(** [s.split(sep)] for a separator of one character: never empty. *)
Fixpoint split (sep : char) (s : str) : list str :=
  match s with
  | [] => [[]]
  | c :: r =>
      if N.eqb c sep then [] :: split sep r
      else match split sep r with
           | [] => [[c]]
           | w :: ws => (c :: w) :: ws
           end
  end.

(** [s.startswith(p)] *)
Fixpoint startswith (p s : str) : bool :=
  match p, s with
  | [], _ => true
  | x :: p', y :: s' => N.eqb x y && startswith p' s'
  | _ :: _, [] => false
  end.

(** [s.endswith(p)] *)
Definition endswith (p s : str) : bool := startswith (rev p) (rev s).

(** [s.replace(old, new, 1)]: the leftmost occurrence of [old] (not
    empty) is replaced, nothing else. *)
Fixpoint replace_first (old new s : str) : str :=
  if startswith old s then new ++ skipn (List.length old) s
  else match s with
       | [] => []
       | c :: r => c :: replace_first old new r
       end.

(** [s.replace(old, new)] for [old] and [new] of one character. *)
Definition replace_char (old new : char) (s : str) : str :=
  map (fun c => if N.eqb c old then new else c) s.

(** *** Decoding UTF-8

    [bytes.decode('utf-8', errors)] as CPython 3 does it: a malformed
    sequence is the longest prefix of a well-formed one, or one byte that
    cannot start any; data that ends inside a sequence is malformed up to
    its end. *)

Inductive exn :=
| OSError
| AssertionError
| IndexError
| UnicodeDecodeError.

Inductive outcome (A : Type) :=
| Ok (a : A)
| Raise (e : exn).
Arguments Ok {A} a.
Arguments Raise {A} e.

Inductive error_handler := Strict | Ignore | Replace.

(** What the handler does with one malformed sequence, given the decoding
    of what follows it. *)
Definition on_malformed (errors : error_handler) (rest : outcome str)
  : outcome str :=
  match errors with
  | Strict => Raise UnicodeDecodeError
  | Ignore => rest
  | Replace => match rest with
               | Ok s => Ok (65533 :: s)
               | Raise e => Raise e
               end
  end.

Definition emit (c : char) (rest : outcome str) : outcome str :=
  match rest with
  | Ok s => Ok (c :: s)
  | Raise e => Raise e
  end.

Definition is_continuation (b : N) : bool := (128 <=? b) && (b <? 192).

(** The second byte of a sequence has a narrower range after the lead
    bytes E0, ED, F0 and F4 (no overlong forms, no surrogates, nothing
    above U+10FFFF). *)
Definition second_ok (lead b : N) : bool :=
  is_continuation b
  && negb (if lead <? 240
           then (if b <? 160 then lead =? 224 else lead =? 237)
           else (if b <? 144 then lead =? 240 else lead =? 244)).

Definition low6 (b : N) : N := N.land b 63.

Fixpoint utf8_decode (errors : error_handler) (bs : bytes) : outcome str :=
  match bs with
  | [] => Ok []
  | b0 :: r0 =>
      if b0 <? 128 then emit b0 (utf8_decode errors r0)
      else if (b0 <? 194) || (245 <=? b0) then
        on_malformed errors (utf8_decode errors r0)
      else if b0 <? 224 then
        match r0 with
        | [] => on_malformed errors (Ok [])
        | b1 :: r1 =>
            if is_continuation b1
            then emit (N.shiftl (N.land b0 31) 6 + low6 b1)
                      (utf8_decode errors r1)
            else on_malformed errors (utf8_decode errors r0)
        end
      else if b0 <? 240 then
        match r0 with
        | [] => on_malformed errors (Ok [])
        | b1 :: r1 =>
            if second_ok b0 b1 then
              match r1 with
              | [] => on_malformed errors (Ok [])
              | b2 :: r2 =>
                  if is_continuation b2
                  then emit (N.shiftl (N.land b0 15) 12
                             + N.shiftl (low6 b1) 6 + low6 b2)
                            (utf8_decode errors r2)
                  else on_malformed errors (utf8_decode errors r1)
              end
            else on_malformed errors (utf8_decode errors r0)
        end
      else
        match r0 with
        | [] => on_malformed errors (Ok [])
        | b1 :: r1 =>
            if second_ok b0 b1 then
              match r1 with
              | [] => on_malformed errors (Ok [])
              | b2 :: r2 =>
                  if is_continuation b2 then
                    match r2 with
                    | [] => on_malformed errors (Ok [])
                    | b3 :: r3 =>
                        if is_continuation b3
                        then emit (N.shiftl (N.land b0 7) 18
                                   + N.shiftl (low6 b1) 12
                                   + N.shiftl (low6 b2) 6 + low6 b3)
                                  (utf8_decode errors r3)
                        else on_malformed errors (utf8_decode errors r2)
                    end
                  else on_malformed errors (utf8_decode errors r1)
              end
            else on_malformed errors (utf8_decode errors r0)
        end
  end.

End Py.
Import Py.

(** ** Sets of strings

    A Python [set] of strings is kept as the list of its distinct members
    in the order they were first added.  The order in which Python yields
    them is not that order: it is the host's [iter_order] below. *)

Abbreviation pyset := (list str) (only parsing).

(** [s.add(x)] *)
Definition set_add (x : str) (s : pyset) : pyset :=
  if mem x s then s else s ++ [x].

(** [s.update(l)] *)
Definition set_update (s : pyset) (l : list str) : pyset :=
  fold_left (fun acc x => set_add x acc) l s.

(** [set(l)] *)
Definition set_of (l : list str) : pyset := set_update [] l.

(** [a == b] on sets. *)
Definition set_eqb (a b : pyset) : bool :=
  forallb (fun x => mem x b) a && forallb (fun x => mem x a) b.

(** ** The host

    A directory as [os.walk] sees it: entries in the order [scandir]
    gives them, each a plain file, a directory, or a symbolic link to a
    directory (listed among the subfolders, never entered). *)

Inductive node :=
| File
| Dir (entries : list (str * node))
| DirLink.

(** A finished child process. *)
Record process := { exit_status : Z; stdout : bytes }.

Record host := {
  (** [platform.system()] *)
  system : str;
  (** [os.path.join], [os.path.abspath], [os.path.isdir] *)
  path_join : str -> str -> str;
  path_abspath : str -> str;
  path_isdir : str -> bool;
  (** what [os.scandir] finds from a path down; [None] when the path
      cannot be listed *)
  tree_at : str -> option node;
  (** [window.folders()] of every window of [sublime.windows()] *)
  windows : list (list str);
  (** a child process by argument vector and working directory; [None]
      when it cannot be started *)
  spawn : list str -> str -> option process;
  (** the order in which a set yields the members it was given *)
  iter_order : list str -> list str
}.

(** [posixpath.join(a, b)] *)
Definition posix_join (a b : str) : str :=
  if startswith [slash] b then b
  else if match a with [] => true | _ => false end || endswith [slash] a
       then a ++ b
       else a ++ [slash] ++ b.

(** ** Effects

    A computation ends with a value or an exception, and leaves the list
    of what it did to the outside: processes started, settings written. *)

Inductive event :=
| Spawn (argv : list str) (cwd : str)
| SettingsSet (key : str) (value : list str)
| SaveSettings (name : str).

Definition M (A : Type) : Type := outcome A * list event.

Definition ret {A} (a : A) : M A := (Ok a, []).

Definition raise {A} (e : exn) : M A := (Raise e, []).

Definition tell (t : list event) : M unit := (Ok tt, t).

Definition bind {A B} (m : M A) (k : A -> M B) : M B :=
  match m with
  | (Ok a, t) => let (r, t') := k a in (r, t ++ t')
  | (Raise e, t) => (Raise e, t)
  end.

Definition lift {A} (o : outcome A) : M A := (o, []).

Notation "x <- m ;; k" := (bind m (fun x => k))
  (at level 61, m at next level, right associativity).
Notation "m ;;; k" := (bind m (fun _ => k))
  (at level 61, right associativity).

(** [for x in l: acc = body(acc, x)] *)
Fixpoint for_each {A S} (l : list A) (acc : S) (body : S -> A -> M S)
  : M S :=
  match l with
  | [] => ret acc
  | x :: r => acc' <- body acc x ;; for_each r acc' body
  end.

(** ** The plugin *)

Section Plugin.

Variable h : host.

Definition git : str := u "git".

(** [subprocess.call(argv, cwd=cwd, ...)]: the exit status. *)
Definition subprocess_call (argv : list str) (cwd : str) : M Z :=
  match spawn h argv cwd with
  | None => raise OSError
  | Some p => tell [Spawn argv cwd] ;;; ret (exit_status p)
  end.

(** [subprocess.Popen(argv, stdout=PIPE, cwd=cwd, ...).stdout.read()]:
    all of the standard output; the exit status is never looked at. *)
Definition popen_read (argv : list str) (cwd : str) : M bytes :=
  match spawn h argv cwd with
  | None => raise OSError
  | Some p => tell [Spawn argv cwd] ;;; ret (stdout p)
  end.

(** The names [os.walk] sorts into subfolders (directories and links to
    directories) and into files (the rest). *)
Definition subfolder_names (es : list (str * node)) : list str :=
  map fst (filter (fun e => match snd e with File => false | _ => true end)
                  es).

Definition file_names (es : list (str * node)) : list str :=
  map fst (filter (fun e => match snd e with File => true | _ => false end)
                  es).

(** [os.walk(top)], top down: each directory with the names of its
    subfolders and of its other entries, then the walk of every subfolder
    that is not a link.  Nothing is pruned on the way. *)
Fixpoint walk (top : str) (n : node) : list (str * list str * list str) :=
  match n with
  | Dir es =>
      (top, subfolder_names es, file_names es)
      :: flat_map (fun e => walk (path_join h top (fst e)) (snd e)) es
  | File | DirLink => []
  end.

Definition os_walk (top : str) : list (str * list str * list str) :=
  match tree_at h top with
  | Some n => walk top n
  | None => []
  end.

Definition rev_parse_inside : list str :=
  [git; u "rev-parse"; u "--is-inside-work-tree"].
Definition rev_parse_toplevel : list str :=
  [git; u "rev-parse"; u "--show-toplevel"].
(** Run with [LANG=C] as its whole environment. *)
Definition clean_ndX : list str := [git; u "clean"; u "-ndX"].

Definition is_in_git_repo (folder : str) : M bool :=
  exit_code <- subprocess_call rev_parse_inside folder ;;
  ret (Z.eqb exit_code 0).

Definition parent_repo_path (folder : str) : M str :=
  out <- popen_read rev_parse_toplevel folder ;;
  text <- lift (utf8_decode Ignore out) ;;
  ret (path_abspath h (strip text)).

Definition find_git_repos (folder : str) : list str :=
  flat_map (fun '(root, subfolders, files) =>
              if mem (u ".git") subfolders then [root] else [])
           (os_walk folder).

Definition would_remove : str := u "Would remove ".

Definition repo_ignored_paths (git_repo : str) : M (list str) :=
  command_output <- popen_read clean_ndX git_repo ;;
  command_output <- lift (utf8_decode Ignore command_output) ;;
  if isspace command_output || str_eqb command_output [] then ret []
  else
    let lines := split newline (strip command_output) in
    let relative_paths :=
      map (fun line => rstrip_slash (replace_first would_remove [] line))
          lines in
    let absolute_paths :=
      map (fun path => path_join h git_repo path) relative_paths in
    ret absolute_paths.

Definition folder_ignored_paths (folder : str) : M (list str) :=
  let all_ignored_paths : pyset := [] in
  let repos := set_of (find_git_repos folder) in
  inside <- is_in_git_repo folder ;;
  repos <- (if inside : bool
            then parent <- parent_repo_path folder ;;
                 ret (set_add parent repos)
            else ret repos) ;;
  all_ignored_paths <-
    for_each (iter_order h repos) all_ignored_paths
      (fun acc git_repo =>
         ignored_paths <- repo_ignored_paths git_repo ;;
         ret (set_update acc ignored_paths)) ;;
  ret (iter_order h all_ignored_paths).

Definition open_folders : pyset :=
  fold_left (fun acc folders => set_update acc folders) (windows h) [].

Definition all_ignored_paths : M (list str) :=
  all_ignored_paths <-
    for_each (iter_order h open_folders) ([] : pyset)
      (fun acc folder =>
         ignored_paths <- folder_ignored_paths folder ;;
         ret (set_update acc ignored_paths)) ;;
  ret (iter_order h all_ignored_paths).

(** [path[1]] raises [IndexError] on a string shorter than two. *)
Definition windows_path_to_sublime_path (path : str) : outcome str :=
  match nth_error path 1 with
  | None => Raise IndexError
  | Some c =>
      if c =? colon then
        let without_colon := firstn 1 path ++ skipn 2 path in
        Ok (replace_char backslash slash without_colon)
      else Raise AssertionError
  end.

Definition is_windows : bool := str_eqb (system h) (u "Windows").

(** Lines 50 to 59: the path in the form the editor wants. *)
Definition to_sublime_format (path : str) : outcome str :=
  if is_windows then windows_path_to_sublime_path path else Ok path.

(** The preferences document; the plugin reads and writes one key.
    [None]: the key is not set. *)
Record settings := { binary_file_patterns : option (list str) }.

(** [s.get('binary_file_patterns', []) or []]: a list of its own at every
    call, the editor hands out copies. *)
Definition get_patterns (s : settings) : list str :=
  match binary_file_patterns s with
  | Some l => l
  | None => []
  end.

Definition preferences : str := u "Preferences.sublime-settings".
Definition key : str := u "binary_file_patterns".

(** Lines 49 to 64: one turn of the loop over the ignored paths, on the
    two lists. *)
Definition exclude_step (lists : list str * list str) (path : str)
  : M (list str * list str) :=
  let '(file_exclude_patterns, folder_exclude_patterns) := lists in
  let is_directory := path_isdir h path in
  path <- lift (to_sublime_format path) ;;
  if is_directory
  then ret (file_exclude_patterns,
            folder_exclude_patterns ++ [path; path ++ u "/*"])
  else ret (file_exclude_patterns ++ [path], folder_exclude_patterns).

(** Lines 48 to 64: the loop. *)
Definition exclude_patterns (file_exclude_patterns folder_exclude_patterns
                             : list str) (paths : list str)
  : M (list str * list str) :=
  for_each paths (file_exclude_patterns, folder_exclude_patterns)
           exclude_step.

(** The settings object after the call is the value returned; an exception
    leaves it as it was, line 72 being the only write and the last thing
    that can fail. *)
Definition update_file_exclude_patterns (s : settings) : M settings :=
  let file_exclude_patterns := get_patterns s in
  let folder_exclude_patterns := get_patterns s in
  paths <- all_ignored_paths ;;
  lists <- exclude_patterns file_exclude_patterns folder_exclude_patterns
                            paths ;;
  let file_exclude_patterns := fst lists in
  let new_files := set_of file_exclude_patterns in
  let old_files := set_of (get_patterns s) in
  if negb (set_eqb new_files old_files) then
    tell [SettingsSet key file_exclude_patterns; SaveSettings preferences] ;;;
    ret {| binary_file_patterns := Some file_exclude_patterns |}
  else ret s.

(** One pass seen from outside: the stored document afterwards, and
    whether the pass saved it. *)
Definition is_save (e : event) : bool :=
  match e with
  | SaveSettings _ => true
  | _ => false
  end.

Definition stored_after (s : settings) : settings :=
  match update_file_exclude_patterns s with
  | (Ok s', _) => s'
  | (Raise _, _) => s
  end.

Definition changed (s : settings) : bool :=
  existsb is_save (snd (update_file_exclude_patterns s)).

End Plugin.

(** ** Hosts used in the examples

    POSIX hosts: [posixpath.join], paths already absolute and normal, sets
    yielding their members in insertion order. *)

Definition output_lines (l : list str) : bytes :=
  flat_map (fun s => s ++ [newline]) l.

Definition exited (code : Z) (out : bytes) : option process :=
  Some {| exit_status := code; stdout := out |}.

Definition posix_host (isdir : str -> bool) (tree : str -> option node)
           (folders : list (list str))
           (run : list str -> str -> option process) : host :=
  {| system := u "Linux";
     path_join := posix_join;
     path_abspath := fun p => p;
     path_isdir := isdir;
     tree_at := tree;
     windows := folders;
     spawn := run;
     iter_order := fun l => l |}.

(** The scenario of the specification: the folder [/work/app] is open,
    [/work/app/lib] is a repository in which the directory [build] and the
    file [out.log] are ignored; [/work/app] is in no repository. *)
Definition scenario : host :=
  posix_host
    (fun p => str_eqb p (u "/work/app/lib/build"))
    (fun p =>
       if str_eqb p (u "/work/app")
       then Some (Dir [(u "lib", Dir [(u ".git", Dir []);
                                      (u "build", Dir []);
                                      (u "out.log", File)])])
       else None)
    [[u "/work/app"]]
    (fun argv cwd =>
       if str_eqb cwd (u "/work/app/lib") && mem (u "clean") argv
       then exited 0 (output_lines [u "Would remove build/";
                                    u "Would remove out.log"])
       else exited 128 []).

Definition empty_settings : settings := {| binary_file_patterns := None |}.

(** No git on the machine: nothing can be started. *)
Definition no_git : host :=
  posix_host (fun _ => false) (fun _ => None) [[u "/work/app"]]
             (fun _ _ => None).

(** Git is there and every query fails; [/work/app/lib] has a [.git]. *)
Definition failing_git : host :=
  posix_host
    (fun _ => false)
    (fun p =>
       if str_eqb p (u "/work/app")
       then Some (Dir [(u "lib", Dir [(u ".git", Dir [])])])
       else None)
    [[u "/work/app"]]
    (fun _ _ => exited 128 []).

(** A repository [/r] whose [.git] holds an [objects] directory and,
    oddly, a [.git] of its own. *)
Definition odd_tree : node :=
  Dir [(u ".git", Dir [(u "objects", Dir []); (u ".git", Dir [])]);
       (u "src", Dir [(u "main.py", File)])].

Definition odd_repo : host :=
  posix_host (fun _ => false)
             (fun p => if str_eqb p (u "/r") then Some odd_tree else None)
             [[u "/r"]]
             (fun _ _ => exited 128 []).

(** Two open folders [/r/a] and [/r/b], both inside the repository [/r],
    in which the file [/r/a/x.o] is ignored. *)
Definition two_roots : host :=
  posix_host
    (fun _ => false)
    (fun p =>
       if str_eqb p (u "/r/a") || str_eqb p (u "/r/b")
       then Some (Dir [])
       else None)
    [[u "/r/a"; u "/r/b"]]
    (fun argv cwd =>
       if mem (u "--is-inside-work-tree") argv
       then exited 0 (output_lines [u "true"])
       else if mem (u "--show-toplevel") argv
       then exited 0 (output_lines [u "/r"])
       else if str_eqb cwd (u "/r")
            then exited 0 (output_lines [u "Would remove a/x.o"])
            else exited 128 []).

(** The folder [/r] is a repository in which the files [q.log] and
    [r.log] are ignored; the first is in the stored list already. *)
Definition two_files : host :=
  posix_host
    (fun _ => false)
    (fun p => if str_eqb p (u "/r")
              then Some (Dir [(u ".git", Dir [])]) else None)
    [[u "/r"]]
    (fun argv cwd =>
       if mem (u "clean") argv
       then exited 0 (output_lines [u "Would remove q.log";
                                    u "Would remove r.log"])
       else exited 128 []).

Definition q_stored : settings :=
  {| binary_file_patterns := Some [u "/r/q.log"] |}.


(** A Windows host differs from [h] in [platform.system()] only. *)
Definition on_windows (h : host) : host :=
  {| system := u "Windows";
     path_join := path_join h;
     path_abspath := path_abspath h;
     path_isdir := path_isdir h;
     tree_at := tree_at h;
     windows := windows h;
     spawn := spawn h;
     iter_order := iter_order h |}.

(** ** Notions used in the statements *)

(** Every event of a computation satisfies [P], in any outcome. *)
Definition only {A} (P : event -> bool) (m : M A) : Prop :=
  forallb P (snd m) = true.

Definition is_spawn (e : event) : bool :=
  match e with
  | Spawn _ _ => true
  | _ => false
  end.

(** The patterns that one pass appends to the list it was given: those
    [exclude_patterns] adds to empty lists. *)
Definition appended_by (h : host) (paths : list str)
  : M (list str * list str) :=
  exclude_patterns h [] [] paths.

(** The ways a pass can go, by the two things it computes: the ignored
    paths and the patterns to append. *)
Inductive pass (h : host) (s : settings) : M settings -> Prop :=
| pass_no_paths e t :
    all_ignored_paths h = (Raise e, t) ->
    pass h s (Raise e, t)
| pass_no_patterns paths t e :
    all_ignored_paths h = (Ok paths, t) ->
    appended_by h paths = (Raise e, []) ->
    pass h s (Raise e, t)
| pass_same paths t F D :
    all_ignored_paths h = (Ok paths, t) ->
    appended_by h paths = (Ok (F, D), []) ->
    (forall x, In x (get_patterns s ++ F) <-> In x (get_patterns s)) ->
    pass h s (Ok s, t)
| pass_write paths t F D :
    all_ignored_paths h = (Ok paths, t) ->
    appended_by h paths = (Ok (F, D), []) ->
    ~ (forall x, In x (get_patterns s ++ F) <-> In x (get_patterns s)) ->
    pass h s
         (Ok {| binary_file_patterns := Some (get_patterns s ++ F) |},
          t ++ [SettingsSet key (get_patterns s ++ F);
                SaveSettings preferences]).


(** Lines with a line feed between them. *)
Fixpoint joined (ls : list str) : str :=
  match ls with
  | [] => []
  | l :: r => match r with
              | [] => l
              | _ :: _ => l ++ newline :: joined r
              end
  end.

(** The last character is there and is no white space. *)
Definition ends_visibly (s : str) : Prop :=
  exists a c, s = a ++ [c] /\ is_whitespace c = false.

(** The directories [os.walk] comes to from [top]: [top] itself and, down
    any entry, those it comes to from there.  (An entry that is a file or
    a link leads nowhere.) *)
Inductive visits (h : host) : str -> node -> str -> list (str * node) -> Prop :=
| visits_top top es : visits h top (Dir es) top es
| visits_below top es name child path es' :
    In (name, child) es ->
    visits h (path_join h top name) child path es' ->
    visits h top (Dir es) path es'.

(** A directory holds the marker: an entry [.git] that is a directory. *)
Definition has_marker (es : list (str * node)) : Prop :=
  exists n, In (u ".git", n) es /\ n <> File.

(** Python yields every member of a set once, in some order. *)
Definition iter_permutes (h : host) : Prop :=
  forall l, Permutation (iter_order h l) l.


(** The body of the two gathering loops: the paths found for [x] go into
    the set. *)
Definition gather (f : str -> M (list str)) (acc : pyset) (x : str)
  : M pyset :=
  ignored_paths <- f x ;; ret (set_update acc ignored_paths).

(** How many times [git clean] was started in the repository [r]. *)
Fixpoint argv_eqb (a b : list str) : bool :=
  match a, b with
  | [], [] => true
  | x :: a', y :: b' => str_eqb x y && argv_eqb a' b'
  | _, _ => false
  end.

Definition is_clean_at (r : str) (e : event) : bool :=
  match e with
  | Spawn argv cwd => argv_eqb argv clean_ndX && str_eqb cwd r
  | _ => false
  end.

Definition enumerations (r : str) (t : list event) : nat :=
  List.length (filter (is_clean_at r) t).

(** [old] is somewhere in [s]. *)
Definition occurs (old s : str) : Prop := exists x y, s = x ++ old ++ y.

(** The first character is there and is no white space. *)
Definition starts_visibly (s : str) : Prop :=
  exists c r, s = c :: r /\ is_whitespace c = false.

Definition carriage_return : char := 13.

(** Output of [git clean -n] with lines that end in CR LF. *)
Definition clean_output_crlf (ps : list str) : str :=
  flat_map (fun p => would_remove ++ p ++ [carriage_return; newline]) ps.

(** ** The start of the plugin and its timer

    The two settings documents the plugin uses: the preferences, and its
    own document with the key [_sublime_gitignorer_has_run] ([None]: not
    set). *)
Record documents := {
  prefs : settings;
  has_run : option bool
}.

(** What the plugin asks of the editor, in order: what a pass does, the
    writing and saving of the flag, the arming of the timer. *)
Inductive call :=
| Did (e : event)
| FlagSet (value : bool)
| FlagSave
| SetTimeout (delay : Z).

(** How a run of the plugin's code ended, what it left in the documents
    and what it asked of the editor. *)
Record ran := {
  result : outcome unit;
  docs : documents;
  calls : list call
}.

(** [not s.get('_sublime_gitignorer_has_run', False)] *)
Definition is_first_launch (d : documents) : bool :=
  negb match has_run d with
       | Some b => b
       | None => false
       end.

(** The body is a docstring. *)
Definition migrate_exclude_patterns (d : documents) : documents := d.

Definition record_first_launch (d : documents) : documents * list call :=
  ({| prefs := prefs d; has_run := Some true |}, [FlagSet true; FlagSave]).

(** The inner [run] of [start]: a pass, then the timer; no timer when the
    pass raises. *)
Definition run (h : host) (d : documents) : ran :=
  match update_file_exclude_patterns h (prefs d) with
  | (Ok s, t) =>
      {| result := Ok tt;
         docs := {| prefs := s; has_run := has_run d |};
         calls := map Did t ++ [SetTimeout (1000 * 3600)] |}
  | (Raise e, t) =>
      {| result := Raise e; docs := d; calls := map Did t |}
  end.

Definition start (h : host) (d : documents) : ran :=
  let (d, first) :=
    if is_first_launch d
    then record_first_launch (migrate_exclude_patterns d)
    else (d, []) in
  let r := run h d in
  {| result := result r; docs := docs r; calls := first ++ calls r |}.

(** The editor fires the timer: [run] again, on the machine as it is
    then.  [hs] is the machine at each firing to come; after a run that
    raised no timer is armed and nothing more happens. *)
Fixpoint fire (hs : list host) (r : ran) : ran :=
  match hs with
  | [] => r
  | h :: hs' =>
      match result r with
      | Ok _ =>
          let r' := run h (docs r) in
          fire hs' {| result := result r';
                      docs := docs r';
                      calls := calls r ++ calls r' |}
      | Raise _ => r
      end
  end.

Definition is_timeout (c : call) : bool :=
  match c with
  | SetTimeout _ => true
  | _ => false
  end.


(** The processes and writes the plugin is meant to make. *)
Definition expected (e : event) : bool :=
  match e with
  | Spawn argv cwd =>
      argv_eqb argv rev_parse_inside || argv_eqb argv rev_parse_toplevel
      || argv_eqb argv clean_ndX
  | SettingsSet k _ => str_eqb k key
  | SaveSettings name => str_eqb name preferences
  end.

(** No directory of the tree holds a directory or a link named [.git]. *)
Fixpoint marker_free (n : node) : bool :=
  match n with
  | Dir es =>
      negb (mem (u ".git") (subfolder_names es))
      && forallb (fun e => marker_free (snd e)) es
  | File | DirLink => true
  end.

(** A machine whose sets yield their members from the second on and the
    first one last.  The folder [/r] is a repository in which git reports
    the files [a], [b] and [c], in this order. *)
Definition rotate (l : list str) : list str :=
  match l with
  | [] => []
  | x :: r => r ++ [x]
  end.

Definition rotating : host :=
  {| system := u "Linux";
     path_join := posix_join;
     path_abspath := fun p => p;
     path_isdir := fun _ => false;
     tree_at := fun p => if str_eqb p (u "/r")
                         then Some (Dir [(u ".git", Dir [])]) else None;
     windows := [[u "/r"]];
     spawn := fun argv cwd =>
                if mem (u "clean") argv
                then exited 0 (output_lines [u "Would remove a";
                                             u "Would remove b";
                                             u "Would remove c"])
                else exited 128 [];
     iter_order := rotate |}.

Definition kept : settings :=
  {| binary_file_patterns := Some [u "keep.me"] |}.




(** ** Text: lemmas *)

Example utf8_ascii :
  utf8_decode Ignore (u "Would remove a/") = Ok (u "Would remove a/").
Proof. reflexivity. Qed.

Example utf8_euro : utf8_decode Strict [226; 130; 172] = Ok [8364].
Proof. reflexivity. Qed.

Example utf8_truncated : utf8_decode Ignore [97; 226; 130] = Ok [97].
Proof. reflexivity. Qed.

Example split_lines :
  split newline (u "a" ++ [newline] ++ u "b") = [u "a"; u "b"].
Proof. reflexivity. Qed.

Example strip_both : strip (u "  x y  ") = u "x y".
Proof. reflexivity. Qed.


Lemma str_eqb_eq (a b : str) : str_eqb a b = true <-> a = b.
Proof.
  revert b; induction a as [|x a IH]; intros [|y b]; simpl;
    try (split; [discriminate | discriminate]); try tauto.
  rewrite andb_true_iff, N.eqb_eq, IH.
  split; [intros [-> ->]; reflexivity | intros [= -> ->]; auto].
Qed.

Lemma str_eqb_refl (a : str) : str_eqb a a = true.
Proof. apply str_eqb_eq; reflexivity. Qed.

Lemma mem_In (x : str) (l : list str) : mem x l = true <-> In x l.
Proof.
  unfold mem; rewrite existsb_exists; split.
  - intros (y & Hy & E); apply str_eqb_eq in E; subst; exact Hy.
  - intros Hx; exists x; split; [exact Hx | apply str_eqb_refl].
Qed.

Lemma mem_false (x : str) (l : list str) : mem x l = false <-> ~ In x l.
Proof.
  rewrite <- mem_In; destruct (mem x l); split; congruence.
Qed.

Lemma startswith_app (p s : str) : startswith p (p ++ s) = true.
Proof.
  induction p as [|x p IH]; simpl; [reflexivity|].
  rewrite N.eqb_refl; exact IH.
Qed.

Lemma skipn_length_app (p s : str) : skipn (List.length p) (p ++ s) = s.
Proof. induction p; simpl; auto. Qed.

(** The leftmost occurrence goes, whatever follows it. *)
Lemma replace_first_prefix (old new s : str) :
  replace_first old new (old ++ s) = new ++ s.
Proof.
  destruct old as [|x old]; simpl.
  - destruct s; reflexivity.
  - rewrite N.eqb_refl, startswith_app; simpl.
    rewrite skipn_length_app; reflexivity.
Qed.

Lemma rstrip_by_nil (p : char -> bool) (s : str) :
  rstrip_by p s = [] <-> forallb p s = true.
Proof.
  induction s as [|c s IH]; simpl; [tauto|].
  destruct (rstrip_by p s) as [|d r] eqn:E.
  - destruct (p c); simpl; split; try discriminate; intros _.
    + apply IH; reflexivity.
    + reflexivity.
  - split; [discriminate|].
    rewrite andb_true_iff; intros [_ H]; apply IH in H; discriminate.
Qed.

(** Stripping on the right stops at the last character that stays. *)
Lemma rstrip_by_app_keep (p : char -> bool) (a b : str) :
  rstrip_by p b <> [] -> rstrip_by p (a ++ b) = a ++ rstrip_by p b.
Proof.
  intros Hb; induction a as [|c a IH]; simpl; [reflexivity|].
  rewrite IH.
  destruct (a ++ rstrip_by p b) eqn:E; [|reflexivity].
  apply app_eq_nil in E; tauto.
Qed.

Lemma rstrip_by_app_drop (p : char -> bool) (a b : str) :
  forallb p b = true -> rstrip_by p (a ++ b) = rstrip_by p a.
Proof.
  intros Hb; induction a as [|c a IH]; simpl.
  - apply rstrip_by_nil; exact Hb.
  - rewrite IH; reflexivity.
Qed.

Lemma rstrip_by_last (p : char -> bool) (a : str) (c : char) :
  p c = false -> rstrip_by p (a ++ [c]) = a ++ [c].
Proof.
  intros Hc; rewrite rstrip_by_app_keep; simpl; rewrite Hc;
    [reflexivity | discriminate].
Qed.

Lemma split_no_sep (sep : char) (s : str) :
  ~ In sep s -> split sep s = [s].
Proof.
  induction s as [|c s IH]; simpl; intros H; [reflexivity|].
  destruct (N.eqb_spec c sep) as [->|_]; [tauto|].
  rewrite IH by tauto; reflexivity.
Qed.

Lemma split_app_sep (sep : char) (a b : str) :
  ~ In sep a -> split sep (a ++ sep :: b) = a :: split sep b.
Proof.
  induction a as [|c a IH]; simpl; intros H.
  - rewrite N.eqb_refl; reflexivity.
  - destruct (N.eqb_spec c sep) as [->|_]; [tauto|].
    rewrite IH by tauto; reflexivity.
Qed.

(** A code point below 128 is its own encoding. *)
Lemma utf8_decode_ascii (errors : error_handler) (bs : bytes) :
  Forall (fun b => b < 128) bs -> utf8_decode errors bs = Ok bs.
Proof.
  induction 1 as [|b bs Hb _ IH]; simpl; [reflexivity|].
  apply N.ltb_lt in Hb; rewrite Hb, IH; reflexivity.
Qed.


(** ** Sets: lemmas *)

Lemma set_add_In (x y : str) (s : pyset) :
  In y (set_add x s) <-> In y s \/ y = x.
Proof.
  unfold set_add; destruct (mem x s) eqn:E.
  - apply mem_In in E; split; [tauto | intros [H| ->]; assumption].
  - rewrite in_app_iff; simpl; intuition.
Qed.

Lemma set_add_NoDup (x : str) (s : pyset) :
  NoDup s -> NoDup (set_add x s).
Proof.
  intros Hs; unfold set_add; destruct (mem x s) eqn:E; [exact Hs|].
  apply mem_false in E.
  apply NoDup_app; [exact Hs | repeat constructor; simpl; tauto |].
  intros y Hy [<-|[]]; tauto.
Qed.

Lemma set_update_In (l : list str) (s : pyset) (y : str) :
  In y (set_update s l) <-> In y s \/ In y l.
Proof.
  unfold set_update; revert s; induction l as [|x l IH]; intros s; simpl.
  - tauto.
  - rewrite IH, set_add_In; intuition.
Qed.

Lemma set_update_NoDup (l : list str) (s : pyset) :
  NoDup s -> NoDup (set_update s l).
Proof.
  unfold set_update; revert s; induction l as [|x l IH]; intros s Hs; simpl.
  - exact Hs.
  - apply IH, set_add_NoDup, Hs.
Qed.

Lemma set_of_In (l : list str) (y : str) : In y (set_of l) <-> In y l.
Proof. unfold set_of; rewrite set_update_In; simpl; tauto. Qed.

Lemma set_of_NoDup (l : list str) : NoDup (set_of l).
Proof. apply set_update_NoDup; constructor. Qed.

Lemma set_eqb_true (a b : pyset) :
  set_eqb a b = true <-> (forall x, In x a <-> In x b).
Proof.
  unfold set_eqb; rewrite andb_true_iff, !forallb_forall; split.
  - intros [Hab Hba] x; split; intros Hx.
    + apply mem_In, Hab, Hx.
    + apply mem_In, Hba, Hx.
  - intros H; split; intros x Hx; apply mem_In, H, Hx.
Qed.

Lemma set_eqb_false (a b : pyset) :
  set_eqb a b = false <-> ~ (forall x, In x a <-> In x b).
Proof.
  rewrite <- set_eqb_true; destruct (set_eqb a b); split; congruence.
Qed.

(** The sets the plugin compares: of a list, and of the list with more
    appended. *)
Lemma set_eqb_of (l l' : list str) :
  set_eqb (set_of l) (set_of l') = true <-> (forall x, In x l <-> In x l').
Proof.
  rewrite set_eqb_true; split; intros H x; specialize (H x);
    rewrite ?set_of_In in *; exact H.
Qed.

Lemma open_folders_In (h : host) (folder : str) :
  In folder (open_folders h) <->
  exists folders, In folders (windows h) /\ In folder folders.
Proof.
  unfold open_folders.
  assert (G : forall ws acc,
      In folder (fold_left (fun acc fs => set_update acc fs) ws acc) <->
      In folder acc \/ exists fs, In fs ws /\ In folder fs).
  { induction ws as [|w ws IH]; intros acc; simpl.
    - split; [tauto | intros [H|(fs & [] & _)]; exact H].
    - rewrite IH, set_update_In; split.
      + intros [[H|H]|(fs & H1 & H2)]; eauto.
      + intros [H|(fs & [<-|H1] & H2)]; eauto. }
  rewrite G; simpl; split; [intros [[]|H]; exact H | eauto].
Qed.

(** ** Effects: lemmas *)

Lemma bind_Ok {A B} (m : M A) (k : A -> M B) (b : B) (t : list event) :
  bind m k = (Ok b, t) ->
  exists a t1 t2, m = (Ok a, t1) /\ k a = (Ok b, t2) /\ t = t1 ++ t2.
Proof.
  unfold bind; destruct m as [[a|e] t1]; [|discriminate].
  destruct (k a) as [r t2] eqn:E; intros [= -> <-].
  exists a, t1, t2; auto.
Qed.

Lemma bind_ret_l {A B} (a : A) (k : A -> M B) : bind (ret a) k = k a.
Proof. unfold bind, ret; destruct (k a); reflexivity. Qed.

Lemma bind_lift_Ok {A B} (a : A) (k : A -> M B) :
  bind (lift (Ok a)) k = k a.
Proof. apply bind_ret_l. Qed.

Lemma bind_raise_l {A B} (e : exn) (t : list event) (k : A -> M B) :
  bind (Raise e, t) k = (Raise e, t).
Proof. reflexivity. Qed.

Lemma bind_Ok_l {A B} (a : A) (t : list event) (k : A -> M B) :
  bind (Ok a, t) k = (fst (k a), t ++ snd (k a)).
Proof. unfold bind; destruct (k a); reflexivity. Qed.

Lemma only_bind {A B} (P : event -> bool) (m : M A) (k : A -> M B) :
  only P m -> (forall a, only P (k a)) -> only P (bind m k).
Proof.
  unfold only, bind; intros Hm Hk; destruct m as [[a|e] t]; simpl in *.
  - specialize (Hk a); destruct (k a) as [r t']; simpl in *.
    rewrite forallb_app, Hm, Hk; reflexivity.
  - exact Hm.
Qed.

Lemma only_ret {A} (P : event -> bool) (a : A) : only P (ret a).
Proof. reflexivity. Qed.

Lemma only_lift {A} (P : event -> bool) (o : outcome A) : only P (lift o).
Proof. reflexivity. Qed.

Lemma only_for_each {A S} (P : event -> bool) (body : S -> A -> M S)
      (l : list A) :
  (forall acc x, only P (body acc x)) ->
  forall acc, only P (for_each l acc body).
Proof.
  intros Hb; induction l as [|x l IH]; intros acc; simpl.
  - apply only_ret.
  - apply only_bind; [apply Hb | intros a; apply IH].
Qed.

Lemma subprocess_call_spawns (h : host) argv cwd :
  only is_spawn (subprocess_call h argv cwd).
Proof. unfold subprocess_call; destruct (spawn h argv cwd); reflexivity. Qed.

Lemma popen_read_spawns (h : host) argv cwd :
  only is_spawn (popen_read h argv cwd).
Proof. unfold popen_read; destruct (spawn h argv cwd); reflexivity. Qed.

Lemma repo_ignored_paths_spawns (h : host) repo :
  only is_spawn (repo_ignored_paths h repo).
Proof.
  unfold repo_ignored_paths.
  apply only_bind; [apply popen_read_spawns | intros out].
  apply only_bind; [apply only_lift | intros text].
  destruct (isspace text || str_eqb text []); apply only_ret.
Qed.

Lemma folder_ignored_paths_spawns (h : host) folder :
  only is_spawn (folder_ignored_paths h folder).
Proof.
  unfold folder_ignored_paths, is_in_git_repo, parent_repo_path.
  repeat first
    [ apply only_ret | apply only_lift | apply subprocess_call_spawns
    | apply popen_read_spawns | apply repo_ignored_paths_spawns
    | apply only_for_each; intros
    | apply only_bind; [|intros]
    | match goal with |- only _ (if ?b then _ else _) => destruct b end ].
Qed.

Lemma all_ignored_paths_spawns (h : host) :
  only is_spawn (all_ignored_paths h).
Proof.
  unfold all_ignored_paths.
  apply only_bind; [|intros; apply only_ret].
  apply only_for_each; intros acc folder.
  apply only_bind; [apply folder_ignored_paths_spawns|intros; apply only_ret].
Qed.

Lemma spawns_no_save (t : list event) :
  forallb is_spawn t = true -> existsb is_save t = false.
Proof.
  induction t as [|[] t IH]; simpl; try discriminate; auto.
Qed.

(** ** The pass: lemmas *)

Lemma to_sublime_format_posix (h : host) (path : str) :
  is_windows h = false -> to_sublime_format h path = Ok path.
Proof. unfold to_sublime_format; intros ->; reflexivity. Qed.

Lemma exclude_step_eq (h : host) (f d : list str) (p : str) :
  exclude_step h (f, d) p =
  match to_sublime_format h p with
  | Ok x => if path_isdir h p
            then (Ok (f, d ++ [x; x ++ u "/*"]), [])
            else (Ok (f ++ [x], d), [])
  | Raise e => (Raise e, [])
  end.
Proof.
  unfold exclude_step.
  destruct (to_sublime_format h p) as [x|e]; [|reflexivity].
  rewrite bind_lift_Ok; destruct (path_isdir h p); reflexivity.
Qed.

(** The loop appends to whatever lists it starts from. *)
Lemma exclude_patterns_shift (h : host) (paths : list str) :
  forall f d,
    exclude_patterns h f d paths =
    match appended_by h paths with
    | (Ok (F, D), t) => (Ok (f ++ F, d ++ D), t)
    | (Raise e, t) => (Raise e, t)
    end.
Proof.
  unfold appended_by, exclude_patterns.
  induction paths as [|p paths IH]; intros f d.
  - simpl; rewrite !app_nil_r; reflexivity.
  - cbn [for_each]; rewrite !exclude_step_eq.
    destruct (to_sublime_format h p) as [x|e]; [|reflexivity].
    destruct (path_isdir h p); rewrite !bind_Ok_l, !app_nil_l;
      rewrite <- !surjective_pairing;
      rewrite IH; symmetry; rewrite IH;
      destruct (for_each paths _ _) as [[[F D]|e] t];
      rewrite <- ?app_assoc; reflexivity.
Qed.

Lemma appended_by_cons (h : host) (p : str) (paths : list str) :
  appended_by h (p :: paths) =
  match to_sublime_format h p with
  | Ok x =>
      match appended_by h paths with
      | (Ok (F, D), t) =>
          if path_isdir h p
          then (Ok (F, [x; x ++ u "/*"] ++ D), t)
          else (Ok (x :: F, D), t)
      | (Raise e, t) => (Raise e, t)
      end
  | Raise e => (Raise e, [])
  end.
Proof.
  unfold appended_by at 1; unfold exclude_patterns.
  cbn [for_each]; rewrite exclude_step_eq.
  destruct (to_sublime_format h p) as [x|e]; [|reflexivity].
  destruct (path_isdir h p); rewrite bind_Ok_l, !app_nil_l;
    rewrite <- surjective_pairing;
    match goal with
    | |- for_each paths (?f, ?d) _ = _ =>
        change (for_each paths (f, d) (exclude_step h))
          with (exclude_patterns h f d paths)
    end;
    rewrite exclude_patterns_shift;
    destruct (appended_by h paths) as [[[F D]|e] t]; reflexivity.
Qed.

Lemma appended_by_silent (h : host) (paths : list str) :
  snd (appended_by h paths) = [].
Proof.
  induction paths as [|p paths IH]; [reflexivity|].
  rewrite appended_by_cons.
  destruct (to_sublime_format h p) as [x|e]; [|reflexivity].
  destruct (appended_by h paths) as [[[F D]|e] t]; [|exact IH].
  destruct (path_isdir h p); exact IH.
Qed.

(** What is appended to the file list: the paths that are no directory,
    in the form the editor wants, in the order they came. *)
Lemma appended_by_files (h : host) (paths : list str) F D t :
  appended_by h paths = (Ok (F, D), t) ->
  Forall2 (fun p x => to_sublime_format h p = Ok x)
          (filter (fun p => negb (path_isdir h p)) paths) F.
Proof.
  revert F D t; induction paths as [|p paths IH]; intros F D t.
  - intros [= <- <- <-]; constructor.
  - rewrite appended_by_cons.
    destruct (to_sublime_format h p) as [x|e] eqn:Ex; [|discriminate].
    destruct (appended_by h paths) as [[[F' D']|e] t'] eqn:E;
      [|discriminate].
    simpl; destruct (path_isdir h p); intros [= <- <- <-]; simpl.
    + eapply IH; reflexivity.
    + constructor; [exact Ex | eapply IH; reflexivity].
Qed.


(** Every pass goes one of the four ways. *)
Lemma update_file_exclude_patterns_pass (h : host) (s : settings) :
  pass h s (update_file_exclude_patterns h s).
Proof.
  unfold update_file_exclude_patterns.
  destruct (all_ignored_paths h) as [[paths|e] t] eqn:Ea;
    [|rewrite bind_raise_l; apply pass_no_paths; exact Ea].
  rewrite bind_Ok_l, exclude_patterns_shift.
  pose proof (appended_by_silent h paths) as Hs.
  destruct (appended_by h paths) as [[[F D]|e] t'] eqn:Eb;
    simpl in Hs; subst t'.
  - rewrite bind_Ok_l; cbn [fst snd].
    destruct (set_eqb _ _) eqn:Eq; cbn [negb fst snd].
    + rewrite !app_nil_r.
      pose proof (proj1 (set_eqb_of _ _) Eq) as Eq'.
      eapply pass_same; eassumption.
    + assert (Hne : ~ (forall x, In x (get_patterns s ++ F) <->
                                 In x (get_patterns s))).
      { intros H; apply (proj2 (set_eqb_of _ _)) in H; congruence. }
      unfold tell; rewrite bind_Ok_l; cbn [fst snd ret].
      rewrite app_nil_l, app_nil_r.
      eapply pass_write; eassumption.
  - rewrite bind_raise_l; cbn [fst snd]; rewrite app_nil_r.
    eapply pass_no_patterns; eassumption.
Qed.

Lemma all_ignored_paths_no_save (h : host) r t :
  all_ignored_paths h = (r, t) -> existsb is_save t = false.
Proof.
  intros E; apply spawns_no_save.
  pose proof (all_ignored_paths_spawns h) as H.
  unfold only in H; rewrite E in H; exact H.
Qed.

Lemma existsb_save_write t (l : list str) :
  existsb is_save (t ++ [SettingsSet key l; SaveSettings preferences])
  = true.
Proof.
  rewrite existsb_app; simpl; apply orb_true_r.
Qed.

(** A pass seen from outside: either nothing is stored and nothing
    saved, or the appended list is stored and saved. *)
Lemma pass_outside (h : host) (s : settings) :
  (stored_after h s = s /\ changed h s = false
   /\ forall paths t F D,
       all_ignored_paths h = (Ok paths, t) ->
       appended_by h paths = (Ok (F, D), []) ->
       forall x, In x (get_patterns s ++ F) <-> In x (get_patterns s))
  \/ (exists paths t F D,
         all_ignored_paths h = (Ok paths, t)
         /\ appended_by h paths = (Ok (F, D), [])
         /\ ~ (forall x, In x (get_patterns s ++ F) <->
                         In x (get_patterns s))
         /\ stored_after h s
            = {| binary_file_patterns := Some (get_patterns s ++ F) |}
         /\ changed h s = true).
Proof.
  unfold stored_after, changed.
  destruct (update_file_exclude_patterns_pass h s)
    as [e t Ea|paths t e Ea Eb|paths t F D Ea Eb Hs|paths t F D Ea Eb Hs];
    cbn [fst snd].
  - left; split; [reflexivity|split];
      [eapply all_ignored_paths_no_save; eassumption | intros; congruence].
  - left; split; [reflexivity|split];
      [eapply all_ignored_paths_no_save; eassumption | intros; congruence].
  - left; split; [reflexivity|split].
    + eapply all_ignored_paths_no_save; eassumption.
    + intros paths' t' F' D' Ea' Eb'.
      rewrite Ea in Ea'; injection Ea' as <- <-.
      rewrite Eb in Eb'; injection Eb' as <- <-; exact Hs.
  - right; exists paths, t, F, D; repeat split; auto.
    apply existsb_save_write.
Qed.

(** C3: Two passes in a row over the same host: the second stores what
    the first left, byte for byte, and saves nothing; and a pass saves
    exactly when the set of the list it computed differs from the set of
    the list that is stored. *)
Theorem C3_sync_idempotent (h : host) (s : settings) :
  stored_after h (stored_after h s) = stored_after h s
  /\ changed h (stored_after h s) = false
  /\ (changed h s = true <->
      exists paths t files folders,
        all_ignored_paths h = (Ok paths, t)
        /\ exclude_patterns h (get_patterns s) (get_patterns s) paths
           = (Ok (files, folders), [])
        /\ set_eqb (set_of files) (set_of (get_patterns s)) = false).
Proof.
  assert (Second : stored_after h (stored_after h s) = stored_after h s
                   /\ changed h (stored_after h s) = false).
  { destruct (pass_outside h s)
      as [(E1 & E2 & _)|(paths & t & F & D & Ea & Eb & _ & E1 & _)].
    - rewrite E1; auto.
    - rewrite E1.
      destruct (pass_outside h {| binary_file_patterns :=
                                    Some (get_patterns s ++ F) |})
        as [(E3 & E4 & _)|(paths' & t' & F' & D' & Ea' & Eb' & Hne & _)].
      + auto.
      + exfalso; apply Hne.
        rewrite Ea in Ea'; injection Ea' as <- <-.
        rewrite Eb in Eb'; injection Eb' as <- <-.
        intros x; cbn [get_patterns binary_file_patterns].
        rewrite !in_app_iff; tauto. }
  destruct Second as [S1 S2]; repeat split; auto.
  - intros Hc.
    destruct (pass_outside h s)
      as [(_ & E2 & _)|(paths & t & F & D & Ea & Eb & Hne & _)];
      [congruence|].
    exists paths, t, (get_patterns s ++ F), (get_patterns s ++ D).
    split; [exact Ea|split].
    + rewrite exclude_patterns_shift, Eb; reflexivity.
    + apply set_eqb_false; intros H; apply Hne.
      intros x; specialize (H x); rewrite !set_of_In in H; exact H.
  - intros (paths & t & files & folders & Ea & Eb & Hne).
    destruct (pass_outside h s)
      as [(_ & _ & Hsame)|(_ & _ & _ & _ & _ & _ & _ & _ & E)];
      [exfalso|exact E].
    rewrite exclude_patterns_shift in Eb.
    destruct (appended_by h paths) as [[[F D]|e] t'] eqn:Ec;
      [|discriminate].
    injection Eb as <- <- ->.
    apply set_eqb_false in Hne; apply Hne; intros x.
    rewrite !set_of_In; eapply Hsame; eassumption.
Qed.

(** The scenario of the specification twice over. *)
Lemma C3_sync_idempotent_witness :
  stored_after scenario (stored_after scenario empty_settings)
  = stored_after scenario empty_settings
  /\ changed scenario (stored_after scenario empty_settings) = false
  /\ changed scenario empty_settings = true.
Proof.
  destruct (C3_sync_idempotent scenario empty_settings) as (H1 & H2 & _).
  split; [exact H1 | split; [exact H2 | vm_compute; reflexivity]].
Defined.

(** C9: There is a pass that saves a list holding the same pattern twice:
    [/r/q.log] is stored, git reports it and [/r/r.log] as ignored, and
    the pass appends both. *)
Theorem C9_duplicate_stored :
  exists (h : host) (s : settings) (x : str),
    NoDup (get_patterns s)
    /\ In x (get_patterns s)
    /\ changed h s = true
    /\ get_patterns (stored_after h s) = get_patterns s ++ [x; u "/r/r.log"]
    /\ count_occ str_eq_dec (get_patterns (stored_after h s)) x = 2%nat.
Proof.
  exists two_files, q_stored, (u "/r/q.log").
  split; [repeat constructor; simpl; tauto|].
  split; [left; reflexivity|].
  split; [vm_compute; reflexivity|].
  split; vm_compute; reflexivity.
Qed.

(** C1: The scenario of the specification, as the code runs it: git
    reports the directory [build] and the file [out.log]; the pass saves,
    and the stored list holds [out.log] alone.  The two patterns of the
    directory went to the second list, which is not stored. *)
Theorem C1_scenario_stores_file_only :
  fst (all_ignored_paths scenario)
  = Ok [u "/work/app/lib/build"; u "/work/app/lib/out.log"]
  /\ path_isdir scenario (u "/work/app/lib/build") = true
  /\ fst (exclude_patterns scenario [] []
            [u "/work/app/lib/build"; u "/work/app/lib/out.log"])
     = Ok ([u "/work/app/lib/out.log"],
           [u "/work/app/lib/build"; u "/work/app/lib/build/*"])
  /\ changed scenario empty_settings = true
  /\ stored_after scenario empty_settings
     = {| binary_file_patterns := Some [u "/work/app/lib/out.log"] |}.
Proof.
  repeat split; vm_compute; reflexivity.
Qed.

(** ** The path form *)

Lemma windows_path_drive (d : char) (rest : str) :
  windows_path_to_sublime_path (d :: colon :: rest)
  = Ok (replace_char backslash slash (d :: rest)).
Proof. reflexivity. Qed.

Lemma windows_path_rejects (path : str) :
  nth_error path 1 <> Some colon ->
  windows_path_to_sublime_path path = Raise IndexError
  \/ windows_path_to_sublime_path path = Raise AssertionError.
Proof.
  unfold windows_path_to_sublime_path; intros H.
  destruct (nth_error path 1) as [c|]; [|left; reflexivity].
  destruct (N.eqb_spec c colon) as [->|_]; [congruence|right; reflexivity].
Qed.

Lemma replace_char_gone (old new : char) (s : str) :
  old <> new -> ~ In old (replace_char old new s).
Proof.
  intros Hne; unfold replace_char; rewrite in_map_iff.
  intros (c & E & _); destruct (N.eqb_spec c old); congruence.
Qed.

(** C8: On Windows a path with the colon second loses that colon and has
    every backslash turned into a slash; elsewhere the path stays as it
    is; on Windows a path without the colon second raises. *)
Theorem C8_path_form (h : host) :
  (is_windows h = true ->
   (forall d rest,
       to_sublime_format h (d :: colon :: rest)
       = Ok (replace_char backslash slash (d :: rest))
       /\ ~ In backslash (replace_char backslash slash (d :: rest)))
   /\ to_sublime_format h (u "C:\repo\build") = Ok (u "C/repo/build")
   /\ (forall path,
          nth_error path 1 <> Some colon ->
          to_sublime_format h path = Raise IndexError
          \/ to_sublime_format h path = Raise AssertionError))
  /\ (is_windows h = false ->
      forall path, to_sublime_format h path = Ok path).
Proof.
  split.
  - intros Hw; unfold to_sublime_format; rewrite Hw.
    split; [|split].
    + intros d rest; split; [apply windows_path_drive|].
      apply replace_char_gone; discriminate.
    + reflexivity.
    + apply windows_path_rejects.
  - intros Hw path; apply to_sublime_format_posix, Hw.
Qed.

Lemma C8_path_form_witness :
  to_sublime_format (on_windows scenario) (u "C:\repo\build")
  = Ok (u "C/repo/build")
  /\ (to_sublime_format (on_windows scenario) (u "/home/user")
      = Raise IndexError
      \/ to_sublime_format (on_windows scenario) (u "/home/user")
         = Raise AssertionError)
  /\ to_sublime_format scenario (u "/home/user/repo/build")
     = Ok (u "/home/user/repo/build").
Proof.
  destruct (C8_path_form (on_windows scenario)) as [Hw _].
  destruct (Hw eq_refl) as (_ & H2 & H3).
  destruct (C8_path_form scenario) as [_ Hp].
  split; [exact H2 | split].
  - apply H3; vm_compute; discriminate.
  - apply Hp; reflexivity.
Defined.

(** ** Reading the output of [git clean] *)


Lemma joined_ends_visibly (ls : list str) :
  ls <> [] -> ends_visibly (last ls []) -> ends_visibly (joined ls).
Proof.
  induction ls as [|l ls IH]; [congruence|intros _ Hl].
  destruct ls as [|m ls]; [exact Hl|].
  destruct IH as (a & c & E & Hc); [discriminate | exact Hl |].
  exists (l ++ newline :: a), c; split; [|exact Hc].
  change (joined (l :: m :: ls)) with (l ++ newline :: joined (m :: ls)).
  rewrite E, <- app_assoc; reflexivity.
Qed.

Lemma split_joined (ls : list str) :
  ls <> [] -> Forall (fun l => ~ In newline l) ls ->
  split newline (joined ls) = ls.
Proof.
  induction ls as [|l ls IH]; [congruence|intros _ Hls].
  inversion Hls as [|? ? Hl Hr]; subst.
  destruct ls as [|m ls].
  - apply split_no_sep, Hl.
  - change (joined (l :: m :: ls)) with (l ++ newline :: joined (m :: ls)).
    rewrite split_app_sep by exact Hl.
    rewrite IH; [reflexivity | discriminate | exact Hr].
Qed.



Lemma popen_read_Some (h : host) argv cwd proc :
  spawn h argv cwd = Some proc ->
  popen_read h argv cwd = (Ok (stdout proc), [Spawn argv cwd]).
Proof. unfold popen_read; intros ->; reflexivity. Qed.












(** ** Finding repositories *)

Lemma node_induction (P : node -> Prop) :
  P File -> P DirLink ->
  (forall es, Forall (fun e => P (snd e)) es -> P (Dir es)) ->
  forall n, P n.
Proof.
  intros HF HL HD; fix IH 1; intros [|es|]; [exact HF| |exact HL].
  apply HD; induction es as [|e es IHes]; constructor; [apply IH|exact IHes].
Qed.

Lemma walk_visits (h : host) (t : str * list str * list str) :
  forall n top,
    In t (walk h top n) <->
    exists path es,
      visits h top n path es
      /\ t = (path, subfolder_names es, file_names es).
Proof.
  intros n top; split.
  - revert top; induction n as [| |es IH] using node_induction;
      intros top; cbn [walk In]; try tauto.
    intros [<-|H].
    + exists top, es; split; [constructor|reflexivity].
    + apply in_flat_map in H; destruct H as ([name child] & He & Ht).
      rewrite Forall_forall in IH.
      destruct (IH _ He _ Ht) as (path & es' & Hv & ->).
      exists path, es'; split; [|reflexivity].
      eapply visits_below; eassumption.
  - intros (path & es & Hv & ->).
    induction Hv as [top es|top es name child path es' He Hv IH];
      cbn [walk]; [left; reflexivity|right].
    apply in_flat_map; exists (name, child); split; [exact He|exact IH].
Qed.

Lemma subfolder_names_marker (es : list (str * node)) :
  mem (u ".git") (subfolder_names es) = true <-> has_marker es.
Proof.
  rewrite mem_In; unfold subfolder_names, has_marker.
  rewrite in_map_iff; split.
  - intros ([name n] & E & H); simpl in E; subst name.
    apply filter_In in H; destruct H as [H Hn].
    exists n; split; [exact H|]; intros ->; discriminate.
  - intros (n & H & Hn); exists (u ".git", n); split; [reflexivity|].
    apply filter_In; split; [exact H|]; destruct n; simpl; congruence.
Qed.

Lemma find_git_repos_visits (h : host) (folder r : str) :
  In r (find_git_repos h folder) <->
  exists n es,
    tree_at h folder = Some n /\ visits h folder n r es /\ has_marker es.
Proof.
  unfold find_git_repos, os_walk; rewrite in_flat_map; split.
  - intros ([[root subs] files] & Ht & Hr).
    destruct (tree_at h folder) as [n|]; [|destruct Ht].
    apply walk_visits in Ht; destruct Ht as (path & es & Hv & [= -> -> ->]).
    destruct (mem (u ".git") (subfolder_names es)) eqn:E; [|destruct Hr].
    destruct Hr as [<-|[]]; exists n, es; repeat split; auto.
    apply subfolder_names_marker, E.
  - intros (n & es & -> & Hv & Hm).
    exists (r, subfolder_names es, file_names es); split.
    + apply walk_visits; eauto.
    + apply subfolder_names_marker in Hm; rewrite Hm; left; reflexivity.
Qed.

Lemma visits_trans (h : host) top n mid es path es' :
  visits h top n mid es -> visits h mid (Dir es) path es' ->
  visits h top n path es'.
Proof.
  induction 1 as [|top es0 name child mid es He Hv IH]; intros H2;
    [exact H2|].
  eapply visits_below; [exact He|apply IH, H2].
Qed.

(** C4: [find_git_repos] gives the directories the walk comes to, the
    folder itself among them, that hold a directory [.git]; a repository
    inside another is given like any other; and the walk goes into [.git]
    as into any directory. *)
Theorem C4_find_git_repos (h : host) (folder : str) :
  (forall r,
      In r (find_git_repos h folder) <->
      exists n es,
        tree_at h folder = Some n /\ visits h folder n r es
        /\ has_marker es)
  /\ (forall n outer es inner es',
         tree_at h folder = Some n ->
         visits h folder n outer es -> has_marker es ->
         visits h outer (Dir es) inner es' -> has_marker es' ->
         In outer (find_git_repos h folder)
         /\ In inner (find_git_repos h folder))
  /\ (forall n r es sub,
         tree_at h folder = Some n ->
         visits h folder n r es ->
         In (u ".git", Dir sub) es ->
         In (path_join h r (u ".git"), subfolder_names sub, file_names sub)
            (os_walk h folder)).
Proof.
  split; [intros r; apply find_git_repos_visits|split].
  - intros n outer es inner es' Ht Ho Hm Hi Hm'.
    split; apply find_git_repos_visits.
    + exists n, es; auto.
    + exists n, es'; repeat split; auto.
      eapply visits_trans; eassumption.
  - intros n r es sub Ht Hv Hg; unfold os_walk; rewrite Ht.
    apply walk_visits; exists (path_join h r (u ".git")), sub.
    split; [|reflexivity].
    eapply visits_trans; [exact Hv|].
    eapply visits_below; [exact Hg|constructor].
Qed.

(** In the odd repository: [/r] holds [.git], and so does [/r/.git]. *)
Lemma C4_find_git_repos_witness :
  In (u "/r") (find_git_repos odd_repo (u "/r"))
  /\ In (u "/r/.git") (find_git_repos odd_repo (u "/r"))
  /\ In (u "/r/.git", [u "objects"; u ".git"], [])
        (os_walk odd_repo (u "/r")).
Proof.
  destruct (C4_find_git_repos odd_repo (u "/r")) as (_ & H2 & H3).
  pose (inner := [(u "objects", Dir []); (u ".git", Dir [])]).
  pose (outer := [(u ".git", Dir inner);
                  (u "src", Dir [(u "main.py", File)])]).
  assert (Hm : has_marker outer).
  { eexists; split; [left; reflexivity|discriminate]. }
  assert (Hm' : has_marker inner).
  { eexists; split; [right; left; reflexivity|discriminate]. }
  assert (V : visits odd_repo (u "/r") (Dir outer) (u "/r/.git") inner).
  { eapply visits_below; [left; reflexivity|apply visits_top]. }
  destruct (H2 odd_tree (u "/r") outer (u "/r/.git") inner eq_refl
               (visits_top odd_repo (u "/r") outer) Hm V Hm') as [Ho Hi].
  split; [exact Ho|split; [exact Hi|]].
  apply (H3 odd_tree (u "/r") outer inner eq_refl
            (visits_top odd_repo (u "/r") outer)).
  left; reflexivity.
Defined.

(** The walk of the odd repository goes into [/r/.git] and below, and
    [/r/.git] is given as a repository. *)
Lemma C4_walk_enters_marker :
  map (fun t => fst (fst t)) (os_walk odd_repo (u "/r"))
  = [u "/r"; u "/r/.git"; u "/r/.git/objects"; u "/r/.git/.git"; u "/r/src"]
  /\ find_git_repos odd_repo (u "/r") = [u "/r"; u "/r/.git"].
Proof. split; reflexivity. Qed.

(** ** The gathering loops *)

Lemma folder_ignored_paths_gather (h : host) (folder : str) :
  folder_ignored_paths h folder =
  (inside <- is_in_git_repo h folder ;;
   repos <- (if inside : bool
             then parent <- parent_repo_path h folder ;;
                  ret (set_add parent (set_of (find_git_repos h folder)))
             else ret (set_of (find_git_repos h folder))) ;;
   all <- for_each (iter_order h repos) [] (gather (repo_ignored_paths h)) ;;
   ret (iter_order h all)).
Proof. reflexivity. Qed.

Lemma all_ignored_paths_gather (h : host) :
  all_ignored_paths h =
  (all <- for_each (iter_order h (open_folders h)) []
                   (gather (folder_ignored_paths h)) ;;
   ret (iter_order h all)).
Proof. reflexivity. Qed.

Lemma gather_Ok (f : str -> M (list str)) acc x acc' t :
  gather f acc x = (Ok acc', t) ->
  exists ys, f x = (Ok ys, t) /\ acc' = set_update acc ys.
Proof.
  unfold gather; intros H; apply bind_Ok in H.
  destruct H as (ys & t1 & t2 & E & [= <- <-] & ->).
  exists ys; rewrite app_nil_r; auto.
Qed.

(** What a gathering loop that ends well has in its set: what was there,
    and what was found for every member of the list. *)
Lemma for_each_gather (f : str -> M (list str)) (l : list str) :
  forall acc acc' t,
    for_each l acc (gather f) = (Ok acc', t) ->
    (NoDup acc -> NoDup acc')
    /\ (forall x, In x l -> exists ys tx, f x = (Ok ys, tx))
    /\ (forall p, In p acc' <->
                  In p acc
                  \/ exists x ys tx,
                      In x l /\ f x = (Ok ys, tx) /\ In p ys).
Proof.
  induction l as [|x l IH]; intros acc acc' t; cbn [for_each].
  - intros [= <- <-]; split; [auto|split].
    + intros x [].
    + intros p; split; [auto|intros [H|(x & _ & _ & [] & _)]; exact H].
  - intros H; apply bind_Ok in H; destruct H as (a & tx & t' & E1 & E2 & ->).
    apply gather_Ok in E1; destruct E1 as (ys & Ef & ->).
    destruct (IH _ _ _ E2) as (Hn & Hall & Hin).
    split; [|split].
    + intros Ha; apply Hn, set_update_NoDup, Ha.
    + intros y [<-|Hy]; [eauto|apply Hall, Hy].
    + intros p; rewrite Hin, set_update_In; split.
      * intros [[H|H]|(y & zs & tz & Hy & Ez & Hp)].
        -- auto.
        -- right; exists x, ys, tx; simpl; auto.
        -- right; exists y, zs, tz; simpl; auto.
      * intros [H|(y & zs & tz & [<-|Hy] & Ez & Hp)].
        -- auto.
        -- rewrite Ef in Ez; injection Ez as <- <-; auto.
        -- right; exists y, zs, tz; auto.
Qed.



Lemma iter_permutes_In (h : host) (l : list str) (x : str) :
  iter_permutes h -> (In x (iter_order h l) <-> In x l).
Proof.
  intros Hp; split; apply Permutation_in;
    [apply Hp | apply Permutation_sym, Hp].
Qed.

Lemma iter_permutes_NoDup (h : host) (l : list str) :
  iter_permutes h -> NoDup l -> NoDup (iter_order h l).
Proof.
  intros Hp; apply Permutation_NoDup, Permutation_sym, Hp.
Qed.

Lemma iter_permutes_nil (h : host) : iter_permutes h -> iter_order h [] = [].
Proof. intros Hp; apply Permutation_nil, Permutation_sym, Hp. Qed.

(** ** When git fails *)





Lemma update_nothing (h : host) (s : settings) t :
  all_ignored_paths h = (Ok [], t) ->
  update_file_exclude_patterns h s = (Ok s, t).
Proof.
  intros Ea.
  destruct (update_file_exclude_patterns_pass h s)
    as [e t' Ea'|paths t' e Ea' Eb|paths t' F D Ea' Eb Hs
        |paths t' F D Ea' Eb Hs];
    rewrite Ea in Ea'; try discriminate; injection Ea' as <- <-.
  - discriminate.
  - reflexivity.
  - exfalso; apply Hs; injection Eb as <- <-; intros x.
    rewrite app_nil_r; tauto.
Qed.



Lemma posix_host_permutes isdir tree folders run :
  iter_permutes (posix_host isdir tree folders run).
Proof. intros l; apply Permutation_refl. Qed.



(** Git failing everywhere, with a [.git] below the folder: the
    repository is found all the same. *)
Example failing_git_finds_repo :
  find_git_repos failing_git (u "/work/app") = [u "/work/app/lib"].
Proof. reflexivity. Qed.

(** ** A repository reached from two folders *)

Lemma gather_trace (f : str -> M (list str)) acc x acc' t :
  gather f acc x = (Ok acc', t) -> t = snd (f x).
Proof.
  intros H; apply gather_Ok in H; destruct H as (ys & -> & _); reflexivity.
Qed.

(** What a gathering loop that ends well did: what was done for each
    member, one after the other. *)
Lemma for_each_gather_trace (f : str -> M (list str)) (l : list str) :
  forall acc acc' t,
    for_each l acc (gather f) = (Ok acc', t) ->
    t = flat_map (fun x => snd (f x)) l.
Proof.
  induction l as [|x l IH]; intros acc acc' t; cbn [for_each flat_map].
  - intros [= _ <-]; reflexivity.
  - intros H; apply bind_Ok in H; destruct H as (a & tx & t' & E1 & E2 & ->).
    rewrite (gather_trace _ _ _ E1), (IH _ _ _ E2); reflexivity.
Qed.

Lemma enumerations_app (r : str) (a b : list event) :
  enumerations r (a ++ b) = (enumerations r a + enumerations r b)%nat.
Proof. unfold enumerations; rewrite filter_app, length_app; reflexivity. Qed.

Lemma enumerations_flat_map (r : str) (g : str -> list event) (l : list str) :
  enumerations r (flat_map g l)
  = list_sum (map (fun x => enumerations r (g x)) l).
Proof.
  induction l as [|x l IH]; [reflexivity|].
  simpl; rewrite enumerations_app, IH; reflexivity.
Qed.



Lemma argv_eqb_refl (a : list str) : argv_eqb a a = true.
Proof.
  induction a as [|x a IH]; [reflexivity|].
  simpl; rewrite str_eqb_refl; exact IH.
Qed.


Lemma folder_ignored_paths_inside (h : host) (f r : str) t1 t2 :
  is_in_git_repo h f = (Ok true, t1) ->
  parent_repo_path h f = (Ok r, t2) ->
  folder_ignored_paths h f =
  match for_each (iter_order h (set_add r (set_of (find_git_repos h f))))
                 [] (gather (repo_ignored_paths h)) with
  | (Ok all, tc) => (Ok (iter_order h all), t1 ++ t2 ++ tc)
  | (Raise e, tc) => (Raise e, t1 ++ t2 ++ tc)
  end.
Proof.
  intros Hi Hr; rewrite folder_ignored_paths_gather, Hi.
  unfold bind at 1; unfold bind at 2; rewrite Hr; cbn [ret].
  rewrite app_nil_r; unfold bind.
  destruct (for_each _ _ _) as [[allp|e] tc]; cbn [ret];
    rewrite ?app_nil_r, <- ?app_assoc; reflexivity.
Qed.


Lemma all_ignored_paths_folders (h : host) l t :
  iter_permutes h ->
  all_ignored_paths h = (Ok l, t) ->
  NoDup l
  /\ (forall f, In f (open_folders h) ->
                exists ps tx,
                  folder_ignored_paths h f = (Ok ps, tx) /\ incl ps l)
  /\ t = flat_map (fun f => snd (folder_ignored_paths h f))
                  (iter_order h (open_folders h)).
Proof.
  intros Hp Ha; rewrite all_ignored_paths_gather in Ha.
  destruct (for_each (iter_order h (open_folders h)) []
                     (gather (folder_ignored_paths h)))
    as [[allp|e] tc] eqn:El; [|discriminate].
  rewrite bind_Ok_l in Ha; cbn [fst snd ret] in Ha; injection Ha as <- <-.
  destruct (for_each_gather _ _ _ El) as (Hn & Hall & Hin).
  split; [|split].
  - apply (iter_permutes_NoDup Hp), Hn; constructor.
  - intros f Hf.
    destruct (Hall f) as (ps & tx & Ef);
      [apply (@iter_permutes_In h _ _ Hp), Hf|].
    exists ps, tx; split; [exact Ef|].
    intros p Hps; apply (@iter_permutes_In h _ _ Hp), Hin.
    right; exists f, ps, tx; repeat split; auto.
    apply (@iter_permutes_In h _ _ Hp), Hf.
  - rewrite app_nil_r; eapply for_each_gather_trace; exact El.
Qed.





(** ** What a folder gathers *)

Lemma is_in_git_repo_cases (h : host) (f : str) :
  is_in_git_repo h f = (Raise OSError, [])
  \/ exists b, is_in_git_repo h f = (Ok b, [Spawn rev_parse_inside f]).
Proof.
  unfold is_in_git_repo, subprocess_call.
  destruct (spawn h rev_parse_inside f) as [proc|]; [right|left; reflexivity].
  eexists; reflexivity.
Qed.

Lemma folder_ignored_paths_outside (h : host) (f : str) t1 :
  is_in_git_repo h f = (Ok false, t1) ->
  folder_ignored_paths h f =
  match for_each (iter_order h (set_of (find_git_repos h f)))
                 [] (gather (repo_ignored_paths h)) with
  | (Ok all, tc) => (Ok (iter_order h all), t1 ++ tc)
  | (Raise e, tc) => (Raise e, t1 ++ tc)
  end.
Proof.
  intros Hi; rewrite folder_ignored_paths_gather, Hi.
  rewrite bind_Ok_l, bind_ret_l; cbv beta.
  destruct (for_each _ _ _) as [[allp|e] tc]; rewrite ?bind_Ok_l;
    cbn [fst snd ret bind]; rewrite ?app_nil_r; reflexivity.
Qed.

(** The repositories a folder asks: those below it, and the one around
    it when git says there is one. *)
Lemma folder_ignored_paths_repos (h : host) (f : str) ps t :
  folder_ignored_paths h f = (Ok ps, t) ->
  exists repos tq all tc,
    for_each (iter_order h repos) [] (gather (repo_ignored_paths h))
    = (Ok all, tc)
    /\ ps = iter_order h all
    /\ t = tq ++ tc
    /\ (forall r, enumerations r tq = 0%nat)
    /\ NoDup repos
    /\ (forall r,
           In r repos <->
           In r (find_git_repos h f)
           \/ (fst (is_in_git_repo h f) = Ok true
               /\ fst (parent_repo_path h f) = Ok r)).
Proof.
  intros Hf.
  destruct (is_in_git_repo_cases h f) as [Hi|([|] & Hi)].
  - rewrite folder_ignored_paths_gather, Hi in Hf; discriminate.
  - destruct (parent_repo_path h f) as [[r|e] t2] eqn:Hr.
    + rewrite (folder_ignored_paths_inside h f Hi Hr) in Hf.
      destruct (for_each _ _ _) as [[all|e] tc] eqn:El; [|discriminate].
      injection Hf as <- <-.
      exists (set_add r (set_of (find_git_repos h f))),
             ([Spawn rev_parse_inside f] ++ t2), all, tc.
      split; [exact El|split; [reflexivity|split]].
      { rewrite <- app_assoc; reflexivity. }
      split; [|split].
      * intros r0; unfold parent_repo_path, popen_read in Hr.
        destruct (spawn h rev_parse_toplevel f) as [proc|]; [|discriminate].
        apply bind_Ok in Hr.
        destruct Hr as (out & ta & tb & [= <- <-] & E2 & ->).
        apply bind_Ok in E2.
        destruct E2 as (text & tc' & td & E3 & [= _ <-] & ->).
        injection E3 as _ <-; reflexivity.
      * apply set_add_NoDup, set_of_NoDup.
      * intros r0; rewrite set_add_In, set_of_In, Hi; cbn [fst].
        split; intros [H|H]; auto.
        -- subst r0; right; auto.
        -- destruct H as [_ [= ->]]; right; reflexivity.
    + rewrite folder_ignored_paths_gather, Hi in Hf.
      unfold bind at 1 in Hf; unfold bind at 2 in Hf.
      rewrite Hr in Hf; discriminate.
  - rewrite (folder_ignored_paths_outside h f Hi) in Hf.
    destruct (for_each _ _ _) as [[all|e] tc] eqn:El; [|discriminate].
    injection Hf as <- <-.
    exists (set_of (find_git_repos h f)), [Spawn rev_parse_inside f], all, tc.
    split; [exact El|split; [reflexivity|split; [reflexivity|]]].
    split; [intros r; reflexivity|split; [apply set_of_NoDup|]].
    intros r0; rewrite set_of_In, Hi; cbn [fst].
    split; [auto|intros [H|[[=] _]]; exact H].
Qed.

(** X1: What [folder_ignored_paths] returns holds no path twice, and
    holds exactly the paths that the repositories of the folder report:
    the repositories found below the folder and, when git says the
    folder is inside one, the repository around it. *)
Theorem X1_folder_ignored_paths_exact (h : host) (f : str) ps t :
  iter_permutes h ->
  folder_ignored_paths h f = (Ok ps, t) ->
  NoDup ps
  /\ forall p,
      In p ps <->
      exists repo qs tq,
        (In repo (find_git_repos h f)
         \/ (fst (is_in_git_repo h f) = Ok true
             /\ fst (parent_repo_path h f) = Ok repo))
        /\ repo_ignored_paths h repo = (Ok qs, tq)
        /\ In p qs.
Proof.
  intros Hp Hf.
  destruct (folder_ignored_paths_repos h f Hf)
    as (repos & tq & all & tc & El & -> & _ & _ & _ & Hr).
  destruct (for_each_gather _ _ _ El) as (Hn & _ & Hin).
  split; [apply (iter_permutes_NoDup Hp), Hn; constructor|].
  intros p; rewrite (@iter_permutes_In h _ _ Hp), Hin; split.
  - intros [[]|(repo & qs & tx & Hrepo & Eq & Hq)].
    exists repo, qs, tx; repeat split; auto.
    apply Hr, (@iter_permutes_In h _ _ Hp), Hrepo.
  - intros (repo & qs & tx & Hrepo & Eq & Hq).
    right; exists repo, qs, tx; repeat split; auto.
    apply (@iter_permutes_In h _ _ Hp), Hr, Hrepo.
Qed.

Lemma X1_folder_ignored_paths_exact_witness :
  NoDup [u "/work/app/lib/build"; u "/work/app/lib/out.log"]
  /\ In (u "/work/app/lib/out.log")
        [u "/work/app/lib/build"; u "/work/app/lib/out.log"].
Proof.
  destruct (@X1_folder_ignored_paths_exact
              scenario (u "/work/app")
              [u "/work/app/lib/build"; u "/work/app/lib/out.log"]
              [Spawn rev_parse_inside (u "/work/app");
               Spawn clean_ndX (u "/work/app/lib")]
              (posix_host_permutes _ _ _ _) eq_refl) as [Hn Hin].
  split; [exact Hn|].
  apply Hin.
  exists (u "/work/app/lib"),
         [u "/work/app/lib/build"; u "/work/app/lib/out.log"],
         [Spawn clean_ndX (u "/work/app/lib")].
  split; [left; left; reflexivity|split; [reflexivity|]].
  right; left; reflexivity.
Defined.

(** X2: What [all_ignored_paths] returns holds no path twice, and holds
    exactly the paths gathered for the folders that are open in some
    window. *)
Theorem X2_all_ignored_paths_exact (h : host) l t :
  iter_permutes h ->
  all_ignored_paths h = (Ok l, t) ->
  NoDup l
  /\ forall p,
      In p l <->
      exists folders f ps tf,
        In folders (windows h) /\ In f folders
        /\ folder_ignored_paths h f = (Ok ps, tf)
        /\ In p ps.
Proof.
  intros Hp Ha.
  destruct (all_ignored_paths_folders Hp Ha) as (Hn & _ & _).
  split; [exact Hn|].
  rewrite all_ignored_paths_gather in Ha.
  destruct (for_each (iter_order h (open_folders h)) []
                     (gather (folder_ignored_paths h)))
    as [[allp|e] tc] eqn:El; [|discriminate].
  rewrite bind_Ok_l in Ha; cbn [fst snd ret] in Ha; injection Ha as <- _.
  destruct (for_each_gather _ _ _ El) as (_ & _ & Hin).
  intros p; rewrite (@iter_permutes_In h _ _ Hp), Hin; split.
  - intros [[]|(f & ps & tf & Hf & Ef & Hps)].
    apply (@iter_permutes_In h _ _ Hp), open_folders_In in Hf.
    destruct Hf as (folders & Hw & Hff).
    exists folders, f, ps, tf; auto.
  - intros (folders & f & ps & tf & Hw & Hff & Ef & Hps).
    right; exists f, ps, tf; repeat split; auto.
    apply (@iter_permutes_In h _ _ Hp), open_folders_In; eauto.
Qed.

Lemma X2_all_ignored_paths_exact_witness :
  NoDup [u "/r/a/x.o"] /\ In (u "/r/a/x.o") [u "/r/a/x.o"].
Proof.
  destruct (@X2_all_ignored_paths_exact
              two_roots [u "/r/a/x.o"] (snd (all_ignored_paths two_roots))
              (posix_host_permutes _ _ _ _) eq_refl) as [Hn Hin].
  split; [exact Hn|].
  apply Hin.
  exists [u "/r/a"; u "/r/b"], (u "/r/b"), [u "/r/a/x.o"],
         (snd (folder_ignored_paths two_roots (u "/r/b"))).
  split; [left; reflexivity|split; [right; left; reflexivity|]].
  split; [reflexivity|left; reflexivity].
Defined.

(** ** One query for each repository of a folder *)

Lemma enumerations_spawn_clean (r x : str) :
  enumerations r [Spawn clean_ndX x] = if str_eqb x r then 1%nat else 0%nat.
Proof.
  unfold enumerations; cbn [filter is_clean_at].
  rewrite argv_eqb_refl; cbn [andb].
  destruct (str_eqb x r); reflexivity.
Qed.

Lemma repo_ignored_paths_Ok_trace (h : host) (x : str) qs t :
  repo_ignored_paths h x = (Ok qs, t) -> t = [Spawn clean_ndX x].
Proof.
  unfold repo_ignored_paths, popen_read; intros H.
  destruct (spawn h clean_ndX x) as [proc|]; [|discriminate].
  apply bind_Ok in H.
  destruct H as (out & t1 & t2 & [= <- <-] & E2 & ->).
  apply bind_Ok in E2.
  destruct E2 as (text & t3 & t4 & E3 & E4 & ->).
  injection E3 as _ <-.
  destruct (isspace text || str_eqb text []); injection E4 as _ <-;
    reflexivity.
Qed.

Lemma list_sum_indicator (r : str) (l : list str) :
  NoDup l ->
  list_sum (map (fun x => if str_eqb x r then 1%nat else 0%nat) l)
  = if mem r l then 1%nat else 0%nat.
Proof.
  induction 1 as [|x l Hx Hn IH]; [reflexivity|].
  simpl; rewrite IH.
  destruct (str_eqb x r) eqn:E.
  - apply str_eqb_eq in E; subst x.
    rewrite str_eqb_refl; cbn [orb].
    apply mem_false in Hx; rewrite Hx; reflexivity.
  - replace (str_eqb r x) with false; [reflexivity|].
    symmetry; destruct (str_eqb r x) eqn:E'; [|reflexivity].
    apply str_eqb_eq in E'; subst; rewrite str_eqb_refl in E; discriminate.
Qed.

(** X3: In the gathering of one folder every repository of the folder is
    asked for its ignored paths exactly once, also when the repository
    around the folder is one of those found below it; no other directory
    is asked. *)
Theorem X3_one_query_per_repository (h : host) (f : str) ps t :
  iter_permutes h ->
  folder_ignored_paths h f = (Ok ps, t) ->
  forall r,
    enumerations r t
    = if (mem r (find_git_repos h f)
          || match fst (is_in_git_repo h f), fst (parent_repo_path h f) with
             | Ok true, Ok parent => str_eqb r parent
             | _, _ => false
             end)%bool
      then 1%nat else 0%nat.
Proof.
  intros Hp Hf r.
  destruct (folder_ignored_paths_repos h f Hf)
    as (repos & tq & all & tc & El & _ & -> & Hq & Hn & Hr).
  rewrite enumerations_app, Hq; cbn [Nat.add].
  rewrite (for_each_gather_trace _ _ _ El), enumerations_flat_map.
  destruct (for_each_gather _ _ _ El) as (_ & Hall & _).
  rewrite (map_ext_in _ (fun x => if str_eqb x r then 1%nat else 0%nat)).
  - rewrite list_sum_indicator by (apply (iter_permutes_NoDup Hp), Hn).
    assert (E : mem r (iter_order h repos)
                = (mem r (find_git_repos h f)
                   || match fst (is_in_git_repo h f),
                            fst (parent_repo_path h f) with
                      | Ok true, Ok parent => str_eqb r parent
                      | _, _ => false
                      end)%bool).
    { apply eq_true_iff_eq.
      rewrite mem_In, (@iter_permutes_In h _ _ Hp), Hr.
      rewrite orb_true_iff, mem_In.
      destruct (fst (is_in_git_repo h f)) as [[|]|e];
        destruct (fst (parent_repo_path h f)) as [parent|e'].
      - rewrite str_eqb_eq; split; (intros [H|H]; [left; exact H|right]).
        + destruct H as [_ H]; congruence.
        + subst r; split; reflexivity.
      - split; (intros [H|H]; [left; exact H|exfalso]).
        + destruct H as [_ H]; discriminate.
        + discriminate.
      - split; (intros [H|H]; [left; exact H|exfalso]).
        + destruct H as [H _]; discriminate.
        + discriminate.
      - split; (intros [H|H]; [left; exact H|exfalso]).
        + destruct H as [H _]; discriminate.
        + discriminate.
      - split; (intros [H|H]; [left; exact H|exfalso]).
        + destruct H as [H _]; discriminate.
        + discriminate.
      - split; (intros [H|H]; [left; exact H|exfalso]).
        + destruct H as [H _]; discriminate.
        + discriminate. }
    rewrite E; reflexivity.
  - intros x Hx; destruct (Hall x Hx) as (ys & tx & Ex).
    rewrite Ex; cbn [snd].
    rewrite (repo_ignored_paths_Ok_trace h x Ex).
    apply enumerations_spawn_clean.
Qed.

(** The folder [/r] is a repository, found by the walk and named by git
    as the one around it: asked once. *)
Lemma X3_one_query_per_repository_witness :
  enumerations (u "/work/app/lib")
               (snd (folder_ignored_paths scenario (u "/work/app")))
  = 1%nat
  /\ enumerations (u "/work/app")
                  (snd (folder_ignored_paths scenario (u "/work/app")))
     = 0%nat.
Proof.
  pose proof (@X3_one_query_per_repository
                scenario (u "/work/app")
                [u "/work/app/lib/build"; u "/work/app/lib/out.log"]
                (snd (folder_ignored_paths scenario (u "/work/app")))
                (posix_host_permutes _ _ _ _) eq_refl) as H.
  split; [rewrite (H (u "/work/app/lib"))|rewrite (H (u "/work/app"))];
    reflexivity.
Defined.

(** ** One failure ends the pass *)

Lemma for_each_gather_raises (f : str -> M (list str)) (l : list str) :
  forall acc x e,
    In x l -> fst (f x) = Raise e ->
    exists e', fst (for_each l acc (gather f)) = Raise e'.
Proof.
  induction l as [|y l IH]; intros acc x e Hx Hf; [destruct Hx|].
  cbn [for_each]; unfold gather at 1.
  destruct (f y) as [[ys|e0] ty] eqn:Ey.
  - rewrite !bind_Ok_l; cbn [fst snd ret].
    destruct Hx as [->|Hx]; [rewrite Ey in Hf; discriminate|].
    rewrite bind_Ok_l; cbn [fst].
    eapply IH; eassumption.
  - exists e0; reflexivity.
Qed.

Lemma bind_fst_raise {A B} (m : M A) (k : A -> M B) e :
  fst m = Raise e -> fst (bind m k) = Raise e.
Proof. destruct m as [[a|e0] t]; simpl; congruence. Qed.

Lemma folder_ignored_paths_raises (h : host) (f repo : str) e :
  iter_permutes h ->
  In repo (find_git_repos h f) ->
  fst (repo_ignored_paths h repo) = Raise e ->
  exists e', fst (folder_ignored_paths h f) = Raise e'.
Proof.
  intros Hp Hr He.
  destruct (is_in_git_repo_cases h f) as [Hi|([|] & Hi)].
  - exists OSError; rewrite folder_ignored_paths_gather, Hi; reflexivity.
  - destruct (parent_repo_path h f) as [[r|e0] t2] eqn:Hpar.
    + rewrite (folder_ignored_paths_inside h f Hi Hpar).
      destruct (@for_each_gather_raises
                  (repo_ignored_paths h)
                  (iter_order h (set_add r (set_of (find_git_repos h f))))
                  [] repo e) as (e' & E); [|exact He|].
      * apply (@iter_permutes_In h _ _ Hp), set_add_In; left.
        apply set_of_In, Hr.
      * destruct (for_each _ _ _) as [[all|e1] tc]; [discriminate|].
        exists e1; reflexivity.
    + exists e0; rewrite folder_ignored_paths_gather, Hi.
      rewrite bind_Ok_l; cbn [fst]; apply bind_fst_raise.
      rewrite Hpar; reflexivity.
  - rewrite (folder_ignored_paths_outside h f Hi).
    destruct (@for_each_gather_raises
                (repo_ignored_paths h)
                (iter_order h (set_of (find_git_repos h f)))
                [] repo e) as (e' & E); [|exact He|].
    + apply (@iter_permutes_In h _ _ Hp), set_of_In, Hr.
    + destruct (for_each _ _ _) as [[all|e1] tc]; [discriminate|].
      exists e1; reflexivity.
Qed.

(** X4: Nothing is caught on the way: when the gathering of one open
    folder raises (for one, when git cannot be started in a repository
    found below it), [all_ignored_paths] raises and so does the pass,
    which then stores and saves nothing, whatever the other folders
    hold. *)
Theorem X4_failure_ends_pass (h : host) (s : settings) (f : str) :
  iter_permutes h ->
  In f (open_folders h) ->
  (exists e, fst (folder_ignored_paths h f) = Raise e)
  \/ (exists repo,
         In repo (find_git_repos h f)
         /\ spawn h clean_ndX repo = None) ->
  exists e,
    fst (all_ignored_paths h) = Raise e
    /\ fst (update_file_exclude_patterns h s) = Raise e
    /\ stored_after h s = s
    /\ changed h s = false.
Proof.
  intros Hp Hf Hfail.
  assert (Hraise : exists e, fst (folder_ignored_paths h f) = Raise e).
  { destruct Hfail as [H|(repo & Hr & Hs)]; [exact H|].
    eapply folder_ignored_paths_raises; [exact Hp|exact Hr|].
    unfold repo_ignored_paths, popen_read; rewrite Hs; reflexivity. }
  destruct Hraise as (e & He).
  destruct (@for_each_gather_raises
              (folder_ignored_paths h) (iter_order h (open_folders h))
              [] f e) as (e' & E); [|exact He|].
  { apply (@iter_permutes_In h _ _ Hp), Hf. }
  assert (Ea : fst (all_ignored_paths h) = Raise e').
  { rewrite all_ignored_paths_gather; apply bind_fst_raise, E. }
  exists e'; split; [exact Ea|].
  unfold stored_after, changed, update_file_exclude_patterns.
  destruct (all_ignored_paths h) as [[l|e0] t] eqn:Eall;
    cbn [fst] in Ea; [discriminate|].
  injection Ea as ->; rewrite bind_raise_l; cbn [fst snd].
  repeat split.
  eapply all_ignored_paths_no_save; exact Eall.
Qed.

(** Git answers the work-tree query and cannot be started for the clean
    query in [/work/app/lib]. *)
Lemma X4_failure_ends_pass_witness :
  exists e,
    fst (all_ignored_paths
           (posix_host (fun _ => false) (tree_at scenario)
                       [[u "/work/app"]]
                       (fun argv cwd =>
                          if mem (u "clean") argv then None
                          else exited 128 []))) = Raise e.
Proof.
  destruct (@X4_failure_ends_pass
              (posix_host (fun _ => false) (tree_at scenario)
                          [[u "/work/app"]]
                          (fun argv cwd =>
                             if mem (u "clean") argv then None
                             else exited 128 []))
              empty_settings (u "/work/app")
              (posix_host_permutes _ _ _ _))
    as (e & H & _).
  - left; reflexivity.
  - right; exists (u "/work/app/lib"); split; [left|]; reflexivity.
  - exists e; exact H.
Defined.

(** ** When a pass saves *)

Lemma new_member (old F : list str) :
  ~ (forall x, In x (old ++ F) <-> In x old) <->
  exists x, In x F /\ ~ In x old.
Proof.
  split.
  - intros Hne.
    destruct (existsb (fun x => negb (mem x old)) F) eqn:E.
    + apply existsb_exists in E; destruct E as (x & Hx & Hm).
      exists x; split; [exact Hx|].
      apply mem_false; destruct (mem x old); [discriminate|reflexivity].
    + exfalso; apply Hne; intros x; rewrite in_app_iff.
      split; [intros [H|H]; [exact H|]|auto].
      apply mem_In; destruct (mem x old) eqn:Em; [reflexivity|].
      assert (Hex : existsb (fun x => negb (mem x old)) F = true)
        by (apply existsb_exists; exists x; rewrite Em; auto).
      congruence.
  - intros (x & Hx & Hn) H; apply Hn, H, in_app_iff; right; exact Hx.
Qed.

(** X5: A pass saves exactly when it derived, from an ignored path that
    is no directory, a pattern that the stored list does not hold yet;
    and after a pass that did not raise every such pattern is in the
    stored list. *)
Theorem X5_saves_on_new_pattern (h : host) (s : settings) :
  (changed h s = true <->
   exists paths t F D x,
     all_ignored_paths h = (Ok paths, t)
     /\ appended_by h paths = (Ok (F, D), [])
     /\ In x F /\ ~ In x (get_patterns s))
  /\ (forall paths t F D x,
         all_ignored_paths h = (Ok paths, t) ->
         appended_by h paths = (Ok (F, D), []) ->
         In x F ->
         In x (get_patterns (stored_after h s))).
Proof.
  split; [split|].
  - intros Hc.
    destruct (pass_outside h s)
      as [(_ & E2 & _)|(paths & t & F & D & Ea & Eb & Hne & _)];
      [congruence|].
    apply new_member in Hne; destruct Hne as (x & Hx & Hn).
    exists paths, t, F, D, x; auto.
  - intros (paths & t & F & D & x & Ea & Eb & Hx & Hn).
    destruct (pass_outside h s)
      as [(_ & _ & Hsame)|(_ & _ & _ & _ & _ & _ & _ & _ & E)];
      [exfalso|exact E].
    apply Hn, (Hsame paths t F D Ea Eb), in_app_iff; right; exact Hx.
  - intros paths t F D x Ea Eb Hx.
    destruct (pass_outside h s)
      as [(E1 & _ & Hsame)
         |(paths' & t' & F' & D' & Ea' & Eb' & _ & E1 & _)];
      rewrite E1.
    + apply (Hsame paths t F D Ea Eb), in_app_iff; right; exact Hx.
    + rewrite Ea in Ea'; injection Ea' as <- <-.
      rewrite Eb in Eb'; injection Eb' as <- <-.
      cbn [get_patterns binary_file_patterns].
      apply in_app_iff; right; exact Hx.
Qed.

Lemma X5_saves_on_new_pattern_witness :
  changed two_files q_stored = true
  /\ In (u "/r/r.log") (get_patterns (stored_after two_files q_stored)).
Proof.
  destruct (X5_saves_on_new_pattern two_files q_stored) as [Hc Hin].
  split.
  - apply Hc.
    exists [u "/r/q.log"; u "/r/r.log"],
           (snd (all_ignored_paths two_files)),
           [u "/r/q.log"; u "/r/r.log"], [], (u "/r/r.log").
    split; [reflexivity|split; [reflexivity|split]].
    + right; left; reflexivity.
    + intros [H|[]]; vm_compute in H; discriminate.
  - apply (Hin [u "/r/q.log"; u "/r/r.log"]
               (snd (all_ignored_paths two_files))
               [u "/r/q.log"; u "/r/r.log"] []);
      [reflexivity|reflexivity|right; left; reflexivity].
Defined.

Lemma filter_none (g : str -> bool) (l : list str) :
  (forall p, In p l -> g p = true) -> filter (fun p => negb (g p)) l = [].
Proof.
  induction l as [|p l IH]; intros H; [reflexivity|].
  cbn [filter]; rewrite (H p (or_introl eq_refl)); cbn [negb].
  apply IH; intros q Hq; apply H; right; exact Hq.
Qed.

(** X6: Ignored directories alone never make a pass save: when every
    path git reports is a directory, the stored list stays as it is. *)
Theorem X6_directories_never_saved (h : host) (s : settings) paths t :
  all_ignored_paths h = (Ok paths, t) ->
  (forall p, In p paths -> path_isdir h p = true) ->
  changed h s = false /\ stored_after h s = s.
Proof.
  intros Ea Hdir.
  destruct (pass_outside h s)
    as [(E1 & E2 & _)|(paths' & t' & F & D & Ea' & Eb & Hne & _)];
    [auto|exfalso].
  rewrite Ea in Ea'; injection Ea' as <- <-.
  apply new_member in Hne; destruct Hne as (x & Hx & _).
  apply appended_by_files in Eb.
  rewrite (filter_none (path_isdir h) paths Hdir) in Eb.
  inversion Eb; subst; destruct Hx.
Qed.

(** The scenario with [out.log] a directory too. *)
Lemma X6_directories_never_saved_witness :
  changed (posix_host (fun _ => true) (tree_at scenario)
                      (windows scenario) (spawn scenario))
          empty_settings = false.
Proof.
  destruct (@X6_directories_never_saved
              (posix_host (fun _ => true) (tree_at scenario)
                          (windows scenario) (spawn scenario))
              empty_settings
              [u "/work/app/lib/build"; u "/work/app/lib/out.log"]
              [Spawn rev_parse_inside (u "/work/app");
               Spawn clean_ndX (u "/work/app/lib")]
              eq_refl) as [H _].
  - intros p _; reflexivity.
  - exact H.
Defined.

Lemma to_sublime_format_raises (h : host) (p : str) e :
  to_sublime_format h p = Raise e -> e = AssertionError \/ e = IndexError.
Proof.
  unfold to_sublime_format, windows_path_to_sublime_path.
  destruct (is_windows h); [|discriminate].
  destruct (nth_error p 1) as [c|]; [|intros [= <-]; auto].
  destruct (c =? colon); [discriminate|intros [= <-]; auto].
Qed.

Lemma appended_by_raises (h : host) (paths : list str) (p : str) e :
  In p paths -> to_sublime_format h p = Raise e ->
  exists e', appended_by h paths = (Raise e', [])
             /\ (e' = AssertionError \/ e' = IndexError).
Proof.
  induction paths as [|q paths IH]; intros Hin He; [destruct Hin|].
  rewrite appended_by_cons.
  destruct (to_sublime_format h q) as [x|e0] eqn:Eq.
  - destruct Hin as [->|Hin]; [congruence|].
    destruct (IH Hin He) as (e' & -> & He'); eauto.
  - exists e0; split; [reflexivity|].
    eapply to_sublime_format_raises; exact Eq.
Qed.

(** X7: On Windows one ignored path without the colon after a drive
    letter (a network path, say), file or directory, makes the whole
    pass raise: nothing is stored or saved, not even for the paths that
    are well formed. *)
Theorem X7_windows_path_ends_pass (h : host) (s : settings) paths t p :
  is_windows h = true ->
  all_ignored_paths h = (Ok paths, t) ->
  In p paths -> nth_error p 1 <> Some colon ->
  (fst (update_file_exclude_patterns h s) = Raise AssertionError
   \/ fst (update_file_exclude_patterns h s) = Raise IndexError)
  /\ stored_after h s = s
  /\ changed h s = false.
Proof.
  intros Hw Ea Hin Hp.
  assert (Hr : exists e, to_sublime_format h p = Raise e).
  { unfold to_sublime_format; rewrite Hw.
    destruct (windows_path_rejects p Hp) as [H|H]; eauto. }
  destruct Hr as (e & He).
  destruct (appended_by_raises h paths p Hin He) as (e' & Eb & He').
  assert (Eu : update_file_exclude_patterns h s = (Raise e', t ++ [])).
  { unfold update_file_exclude_patterns.
    rewrite Ea, bind_Ok_l, exclude_patterns_shift, Eb, bind_raise_l.
    reflexivity. }
  unfold stored_after, changed; rewrite Eu; cbn [fst snd].
  split; [destruct He' as [->| ->]; auto|split; [reflexivity|]].
  rewrite app_nil_r; eapply all_ignored_paths_no_save; exact Ea.
Qed.

(** The scenario on Windows: git's paths start with a slash. *)
Lemma X7_windows_path_ends_pass_witness :
  fst (update_file_exclude_patterns (on_windows scenario) empty_settings)
  = Raise AssertionError
  \/ fst (update_file_exclude_patterns (on_windows scenario) empty_settings)
     = Raise IndexError.
Proof.
  destruct (@X7_windows_path_ends_pass
              (on_windows scenario) empty_settings
              [u "/work/app/lib/build"; u "/work/app/lib/out.log"]
              [Spawn rev_parse_inside (u "/work/app");
               Spawn clean_ndX (u "/work/app/lib")]
              (u "/work/app/lib/build") eq_refl eq_refl) as [H _].
  - left; reflexivity.
  - vm_compute; discriminate.
  - exact H.
Defined.

(** ** The path form: what changes and what stays *)

Lemma count_occ_replace_char (old new c : char) (s : str) :
  c <> old -> c <> new ->
  count_occ N.eq_dec (replace_char old new s) c = count_occ N.eq_dec s c.
Proof.
  intros Ho Hn; induction s as [|x s IH]; [reflexivity|].
  cbn [replace_char map count_occ]; fold (replace_char old new s).
  rewrite IH; destruct (N.eqb_spec x old) as [->|Hx].
  - destruct (N.eq_dec new c), (N.eq_dec old c); congruence.
  - reflexivity.
Qed.

(** X8: When [windows_path_to_sublime_path] returns, the path had the
    colon second; the result is one character shorter, holds no
    backslash, and holds every colon of the path but that one. *)
Theorem X8_windows_path_shape (path out : str) :
  windows_path_to_sublime_path path = Ok out ->
  nth_error path 1 = Some colon
  /\ List.length out = (List.length path - 1)%nat
  /\ ~ In backslash out
  /\ S (count_occ N.eq_dec out colon) = count_occ N.eq_dec path colon.
Proof.
  unfold windows_path_to_sublime_path.
  destruct path as [|d [|c rest]]; try discriminate.
  cbn [nth_error]; destruct (N.eqb_spec c colon) as [->|Hc];
    [|discriminate].
  intros E.
  assert (Eo : out = replace_char backslash slash (d :: rest))
    by (injection E as <-; reflexivity).
  clear E; subst out.
  split; [reflexivity|split; [|split]].
  - unfold replace_char; rewrite length_map; reflexivity.
  - apply replace_char_gone; discriminate.
  - rewrite count_occ_replace_char by discriminate.
    cbn [count_occ]; destruct (N.eq_dec d colon);
      destruct (N.eq_dec colon colon); congruence.
Qed.

Lemma X8_windows_path_shape_witness :
  List.length (u "C/a:b") = (List.length (u "C:\a:b") - 1)%nat
  /\ S (count_occ N.eq_dec (u "C/a:b") colon)
     = count_occ N.eq_dec (u "C:\a:b") colon.
Proof.
  destruct (@X8_windows_path_shape (u "C:\a:b") (u "C/a:b") eq_refl)
    as (_ & H1 & _ & H2).
  split; [exact H1|exact H2].
Defined.

(** ** The marker, wherever it is *)

Lemma startswith_true (p s : str) :
  startswith p s = true -> s = p ++ skipn (List.length p) s.
Proof.
  revert s; induction p as [|x p IH]; intros s; [reflexivity|].
  destruct s as [|y s]; [discriminate|]; cbn [startswith].
  rewrite andb_true_iff, N.eqb_eq; intros [-> H].
  cbn [List.length skipn app]; f_equal; apply IH, H.
Qed.

Lemma replace_first_absent (old new s : str) :
  ~ occurs old s -> replace_first old new s = s.
Proof.
  induction s as [|c s IH]; intros Hn.
  - cbn [replace_first]; destruct (startswith old []) eqn:E; [|reflexivity].
    exfalso; apply Hn; apply startswith_true in E.
    exists [], (skipn (List.length old) []); exact E.
  - cbn [replace_first]; destruct (startswith old (c :: s)) eqn:E.
    + exfalso; apply Hn; apply startswith_true in E.
      exists [], (skipn (List.length old) (c :: s)); exact E.
    + f_equal; apply IH; intros (x & y & ->); apply Hn.
      exists (c :: x), y; reflexivity.
Qed.

Lemma replace_first_earliest (old new a b : str) :
  (forall x y, a ++ old ++ b = x ++ old ++ y ->
               (List.length a <= List.length x)%nat) ->
  replace_first old new (a ++ old ++ b) = a ++ new ++ b.
Proof.
  induction a as [|c a IH]; intros Hmin.
  - exact (replace_first_prefix old new b).
  - cbn [app replace_first].
    destruct (startswith old (c :: a ++ old ++ b)) eqn:E.
    + apply startswith_true in E.
      specialize (Hmin [] _ E); simpl in Hmin; lia.
    + f_equal; apply IH; intros x y Hxy.
      specialize (Hmin (c :: x) y); cbn [app] in Hmin.
      rewrite Hxy in Hmin; specialize (Hmin eq_refl); simpl in Hmin; lia.
Qed.

(** X10: [replace_first], the [replace(old, new, 1)] of the plugin: a
    string without [old] stays as it is; otherwise the occurrence that
    starts first is replaced, wherever in the string it is, and nothing
    else changes. *)
Theorem X10_replace_first_leftmost (old new : str) :
  (forall s, ~ occurs old s -> replace_first old new s = s)
  /\ (forall a b,
         (forall x y, a ++ old ++ b = x ++ old ++ y ->
                      (List.length a <= List.length x)%nat) ->
         replace_first old new (a ++ old ++ b) = a ++ new ++ b).
Proof.
  split; [apply replace_first_absent|apply replace_first_earliest].
Qed.

(** [Would skip repository sub/] has no marker; in [x Would remove y]
    the marker goes from the middle. *)
Lemma X10_replace_first_leftmost_witness :
  replace_first would_remove [] (u "Would skip repository sub/")
  = u "Would skip repository sub/"
  /\ replace_first would_remove [] (u "x " ++ would_remove ++ u "y")
     = u "x " ++ [] ++ u "y".
Proof.
  destruct (X10_replace_first_leftmost would_remove []) as [H1 H2].
  split.
  - apply H1; intros (x & y & E).
    assert (L : (List.length x <= 13)%nat).
    { apply (f_equal (@List.length _)) in E.
      rewrite !length_app in E; simpl in E; lia. }
    do 14 (destruct x as [|? x]; [vm_compute in E; discriminate|]);
      simpl in L; lia.
  - apply H2; intros x y E.
    destruct x as [|c0 [|c1 x]]; simpl; try lia;
      vm_compute in E; discriminate.
Defined.

(** ** Lines of any kind *)

Lemma joined_starts_visibly (ls : list str) :
  starts_visibly (hd [] ls) -> starts_visibly (joined ls).
Proof.
  destruct ls as [|l ls]; [intros (c & r & E & _); discriminate|].
  cbn [hd]; intros (c & r & -> & Hc).
  destruct ls as [|m ls]; [exists c, r; auto|].
  exists c, (r ++ newline :: joined (m :: ls)); auto.
Qed.

Lemma strip_lines (ls : list str) (tail : str) :
  ls <> [] ->
  starts_visibly (hd [] ls) -> ends_visibly (last ls []) ->
  forallb is_whitespace tail = true ->
  strip (joined ls ++ tail) = joined ls
  /\ (isspace (joined ls ++ tail) || str_eqb (joined ls ++ tail) []) = false.
Proof.
  intros Hne Hs He Ht.
  destruct (@joined_starts_visibly ls Hs) as (c & r & E & Hc).
  destruct (@joined_ends_visibly ls Hne He) as (a & d & E' & Hd).
  split.
  - unfold strip.
    assert (L : lstrip_by is_whitespace (joined ls ++ tail)
                = joined ls ++ tail).
    { rewrite E; cbn [app lstrip_by]; rewrite Hc; reflexivity. }
    rewrite L, rstrip_by_app_drop by exact Ht.
    rewrite E'; apply rstrip_by_last, Hd.
  - rewrite E; cbn [app isspace forallb str_eqb]; rewrite Hc; reflexivity.
Qed.

Lemma repo_ignored_paths_any_lines (h : host) repo proc ls tail :
  spawn h clean_ndX repo = Some proc ->
  utf8_decode Ignore (stdout proc) = Ok (joined ls ++ tail) ->
  ls <> [] ->
  Forall (fun l => ~ In newline l) ls ->
  starts_visibly (hd [] ls) -> ends_visibly (last ls []) ->
  forallb is_whitespace tail = true ->
  repo_ignored_paths h repo
  = (Ok (map (fun l =>
                path_join h repo
                          (rstrip_slash (replace_first would_remove [] l)))
             ls),
     [Spawn clean_ndX repo]).
Proof.
  intros Hs Hd Hne Hnl Hst He Ht; unfold repo_ignored_paths.
  rewrite (popen_read_Some _ _ _ Hs), bind_Ok_l, Hd, bind_lift_Ok.
  destruct (@strip_lines ls tail Hne Hst He Ht) as [E1 E2].
  rewrite E2, E1, split_joined by assumption.
  cbn [fst snd ret]; rewrite map_map; reflexivity.
Qed.

(** X9: [repo_ignored_paths] makes one path of every line of the output,
    whatever the line says: the line loses the first marker it holds, if
    any, and the slashes at its end, and is joined to the repository.  A
    line without the marker, such as git's note on a repository it
    skips, becomes a path as it stands. *)
Theorem X9_one_path_per_line (h : host) repo proc (ls : list str) tail :
  spawn h clean_ndX repo = Some proc ->
  utf8_decode Ignore (stdout proc) = Ok (joined ls ++ tail) ->
  ls <> [] ->
  Forall (fun l => ~ In newline l) ls ->
  starts_visibly (hd [] ls) -> ends_visibly (last ls []) ->
  forallb is_whitespace tail = true ->
  exists paths,
    repo_ignored_paths h repo = (Ok paths, [Spawn clean_ndX repo])
    /\ List.length paths = List.length ls
    /\ Forall2 (fun l path =>
                  path = path_join h repo
                           (rstrip_slash (replace_first would_remove [] l))
                  /\ (~ occurs would_remove l ->
                      path = path_join h repo (rstrip_slash l)))
               ls paths.
Proof.
  intros Hs Hd Hne Hnl Hst He Ht.
  eexists; split;
    [eapply repo_ignored_paths_any_lines; eassumption|split].
  - apply length_map.
  - clear; induction ls as [|l ls IH]; constructor; [|exact IH].
    split; [reflexivity|intros Hn].
    rewrite replace_first_absent by exact Hn; reflexivity.
Qed.

(** Git skips a repository below and says so on a line of its own. *)
Lemma X9_one_path_per_line_witness :
  repo_ignored_paths
    (posix_host (fun _ => false) (fun _ => None) [[u "/r"]]
                (fun _ _ =>
                   exited 0 (output_lines [u "Would skip repository sub/";
                                           u "Would remove x.o"])))
    (u "/r")
  = (Ok [u "/r/Would skip repository sub"; u "/r/x.o"],
     [Spawn clean_ndX (u "/r")]).
Proof.
  destruct (@X9_one_path_per_line
              (posix_host (fun _ => false) (fun _ => None) [[u "/r"]]
                          (fun _ _ =>
                             exited 0
                               (output_lines
                                  [u "Would skip repository sub/";
                                   u "Would remove x.o"])))
              (u "/r")
              {| exit_status := 0;
                 stdout := output_lines [u "Would skip repository sub/";
                                         u "Would remove x.o"] |}
              [u "Would skip repository sub/"; u "Would remove x.o"]
              [newline] eq_refl eq_refl)
    as (paths & E & _ & _).
  - discriminate.
  - repeat constructor; intros H; vm_compute in H; intuition discriminate.
  - exists 87, (u "ould skip repository sub/"); split; reflexivity.
  - exists (u "Would remove x."), 111; split; reflexivity.
  - reflexivity.
  - reflexivity.
Defined.

(** ** Lines that end in CR LF *)

Lemma clean_output_crlf_joined (init : list str) (final : str) :
  clean_output_crlf (init ++ [final])
  = joined (map (fun p => would_remove ++ p ++ [carriage_return]) init
            ++ [would_remove ++ final])
    ++ [carriage_return; newline].
Proof.
  induction init as [|p init IH].
  - cbn [app map clean_output_crlf flat_map joined].
    rewrite app_nil_r, <- !app_assoc; reflexivity.
  - change (clean_output_crlf ((p :: init) ++ [final]))
      with ((would_remove ++ p ++ [carriage_return; newline])
              ++ clean_output_crlf (init ++ [final])).
    rewrite IH; cbn [map app].
    destruct (map (fun p0 => would_remove ++ p0 ++ [carriage_return]) init
              ++ [would_remove ++ final]) as [|m ms] eqn:E.
    + destruct init; discriminate.
    + change (joined ((would_remove ++ p ++ [carriage_return]) :: m :: ms))
        with ((would_remove ++ p ++ [carriage_return])
                ++ newline :: joined (m :: ms)).
      rewrite <- !app_assoc; reflexivity.
Qed.

(** X11: Lines are cut at LF alone.  When git's lines end in CR LF,
    every entry but the last keeps the CR at the end of its path, and
    with it the slash of a directory; the last entry comes out clean. *)
Theorem X11_crlf_output (h : host) repo proc (init : list str) final :
  spawn h clean_ndX repo = Some proc ->
  utf8_decode Ignore (stdout proc)
  = Ok (clean_output_crlf (init ++ [final])) ->
  Forall (fun p => ~ In newline p) (init ++ [final]) ->
  ends_visibly final ->
  repo_ignored_paths h repo
  = (Ok (map (fun p => path_join h repo (p ++ [carriage_return])) init
         ++ [path_join h repo (rstrip_slash final)]),
     [Spawn clean_ndX repo]).
Proof.
  intros Hs Hd Hnl He.
  rewrite clean_output_crlf_joined in Hd.
  rewrite (@repo_ignored_paths_any_lines h repo proc _ _ Hs Hd).
  - rewrite map_app, map_map; cbn [map].
    rewrite replace_first_prefix; cbn [app].
    f_equal; f_equal; f_equal.
    apply map_ext; intros p.
    rewrite replace_first_prefix; cbn [app].
    unfold rstrip_slash; rewrite rstrip_by_last; reflexivity.
  - destruct init; discriminate.
  - apply Forall_app in Hnl; destruct Hnl as [Hi Hf].
    apply Forall_app; split.
    + apply Forall_map; revert Hi; apply Forall_impl; intros p Hp.
      rewrite !in_app_iff; intros [H|[H|H]]; [|tauto|].
      * vm_compute in H; intuition discriminate.
      * vm_compute in H; intuition discriminate.
    + inversion Hf; subst; repeat constructor.
      rewrite in_app_iff; intros [H|H]; [|tauto].
      vm_compute in H; intuition discriminate.
  - destruct init; exists 87; eexists; split; reflexivity.
  - rewrite last_last; destruct He as (a & c & -> & Hc).
    exists (would_remove ++ a), c; rewrite <- app_assoc; auto.
  - reflexivity.
Qed.

Lemma X11_crlf_output_witness :
  repo_ignored_paths
    (posix_host (fun _ => false) (fun _ => None) [[u "/r"]]
                (fun _ _ =>
                   exited 0 (clean_output_crlf [u "build/"; u "x.o"])))
    (u "/r")
  = (Ok [u "/r/build/" ++ [carriage_return]; u "/r/x.o"],
     [Spawn clean_ndX (u "/r")]).
Proof.
  rewrite (@X11_crlf_output
             (posix_host (fun _ => false) (fun _ => None) [[u "/r"]]
                         (fun _ _ =>
                            exited 0
                              (clean_output_crlf [u "build/"; u "x.o"])))
             (u "/r")
             {| exit_status := 0;
                stdout := clean_output_crlf [u "build/"; u "x.o"] |}
             [u "build/"] (u "x.o") eq_refl eq_refl).
  - reflexivity.
  - repeat constructor; intros H; vm_compute in H; intuition discriminate.
  - exists (u "x."), 111; split; reflexivity.
Defined.

(** ** Start and timer *)

Lemma run_prefs (h : host) (d : documents) :
  prefs (docs (run h d)) = stored_after h (prefs d)
  /\ has_run (docs (run h d)) = has_run d.
Proof.
  unfold run, stored_after.
  destruct (update_file_exclude_patterns h (prefs d)) as [[s|e] t];
    split; reflexivity.
Qed.


Lemma run_cases (h : host) (d : documents) :
  (exists e, result (run h d) = Raise e
             /\ existsb is_timeout (calls (run h d)) = false
             /\ docs (run h d) = d
             /\ fst (update_file_exclude_patterns h (prefs d)) = Raise e)
  \/ (exists before,
         result (run h d) = Ok tt
         /\ calls (run h d) = before ++ [SetTimeout 3600000]
         /\ existsb is_timeout before = false
         /\ exists s, fst (update_file_exclude_patterns h (prefs d)) = Ok s).
Proof.
  unfold run.
  destruct (update_file_exclude_patterns h (prefs d)) as [[s|e] t];
    cbn [result calls docs fst].
  - right; exists (map Did t); repeat split; eauto.
    induction t; auto.
  - left; exists e; repeat split.
    induction t; auto.
Qed.

(** X13: [start] arms the timer once, for 3600000 milliseconds, as the
    last thing it does, when the pass ended well; when the pass raised,
    [start] raises the same and arms no timer, so no later pass will
    run. *)
Theorem X13_timer_after_good_pass (h : host) (d : documents) :
  (forall e,
      fst (update_file_exclude_patterns h (prefs d)) = Raise e ->
      result (start h d) = Raise e
      /\ existsb is_timeout (calls (start h d)) = false
      /\ forall hs, fire hs (start h d) = start h d)
  /\ (forall s,
         fst (update_file_exclude_patterns h (prefs d)) = Ok s ->
         result (start h d) = Ok tt
         /\ exists before,
             calls (start h d) = before ++ [SetTimeout 3600000]
             /\ existsb is_timeout before = false).
Proof.
  assert (Hs : exists d' first,
             prefs d' = prefs d
             /\ existsb is_timeout first = false
             /\ start h d
                = {| result := result (run h d');
                     docs := docs (run h d');
                     calls := first ++ calls (run h d') |}).
  { unfold start; destruct (is_first_launch d);
      cbn [record_first_launch migrate_exclude_patterns].
    - exists {| prefs := prefs d; has_run := Some true |},
             [FlagSet true; FlagSave].
      split; [reflexivity|split; reflexivity].
    - exists d, []; split; [reflexivity|split; reflexivity]. }
  destruct Hs as (d' & first & Hd' & Hf & ->).
  split.
  - intros e He.
    destruct (run_cases h d')
      as [(e' & Hr & Ht & _ & Hu)|(before & _ & _ & _ & s & Hu)];
      rewrite Hd' in Hu; [|congruence].
    assert (e' = e) by congruence; subst e'.
    cbn [result calls]; rewrite existsb_app, Hf, Ht.
    split; [congruence|split; [reflexivity|]].
    intros hs; destruct hs; cbn [fire result]; rewrite ?Hr; reflexivity.
  - intros s Hs.
    destruct (run_cases h d')
      as [(e' & _ & _ & _ & Hu)|(before & Hr & Hc & Hb & _)];
      [rewrite Hd' in Hu; congruence|].
    cbn [result calls]; split; [exact Hr|].
    exists (first ++ before); rewrite Hc, app_assoc; split; [reflexivity|].
    rewrite existsb_app, Hf, Hb; reflexivity.
Qed.

Lemma X13_timer_after_good_pass_witness :
  result (start no_git {| prefs := empty_settings; has_run := None |})
  = Raise OSError
  /\ result (start scenario {| prefs := empty_settings; has_run := None |})
     = Ok tt.
Proof.
  destruct (X13_timer_after_good_pass
              no_git {| prefs := empty_settings; has_run := None |})
    as [H1 _].
  destruct (X13_timer_after_good_pass
              scenario {| prefs := empty_settings; has_run := None |})
    as [_ H2].
  split.
  - apply (H1 OSError); reflexivity.
  - apply (H2 {| binary_file_patterns := Some [u "/work/app/lib/out.log"] |}).
    reflexivity.
Defined.

Lemma get_patterns_stored_after (h : host) (s : settings) :
  exists more,
    get_patterns (stored_after h s) = get_patterns s ++ more.
Proof.
  destruct (pass_outside h s)
    as [(E1 & _)|(paths & t & F & D & _ & _ & _ & E1 & _)]; rewrite E1.
  - exists []; rewrite app_nil_r; reflexivity.
  - exists F; reflexivity.
Qed.

(** X14: Over any number of timer firings, on machines that may differ
    from one firing to the next, the stored list only grows at its end:
    what was stored at the start is still there, in place, and the flag
    of the first launch is never unset. *)
Theorem X14_stored_list_only_grows (hs : list host) (r : ran) :
  (exists more,
      get_patterns (prefs (docs (fire hs r)))
      = get_patterns (prefs (docs r)) ++ more)
  /\ has_run (docs (fire hs r)) = has_run (docs r).
Proof.
  revert r; induction hs as [|h hs IH]; intros r; cbn [fire].
  - split; [exists []; rewrite app_nil_r|]; reflexivity.
  - destruct (result r) as [[]|e].
    + destruct (IH {| result := result (run h (docs r));
                      docs := docs (run h (docs r));
                      calls := calls r ++ calls (run h (docs r)) |})
        as [(more & E) Hf].
      cbn [docs] in E, Hf.
      destruct (run_prefs h (docs r)) as [Ep Eh].
      destruct (get_patterns_stored_after h (prefs (docs r)))
        as (more0 & E0).
      split.
      * exists (more0 ++ more).
        rewrite E, Ep, E0, app_assoc; reflexivity.
      * rewrite Hf, Eh; reflexivity.
    + split; [exists []; rewrite app_nil_r|]; reflexivity.
Qed.

(** ** What a pass asks of the machine *)

Lemma argv_eqb_eq (a b : list str) : argv_eqb a b = true -> a = b.
Proof.
  revert b; induction a as [|x a IH]; intros [|y b]; simpl;
    try discriminate; [reflexivity|].
  rewrite andb_true_iff, str_eqb_eq; intros [-> H]; f_equal; apply IH, H.
Qed.

Lemma repo_ignored_paths_expected (h : host) repo :
  only expected (repo_ignored_paths h repo).
Proof.
  unfold repo_ignored_paths, popen_read.
  apply only_bind; [destruct (spawn h clean_ndX repo); reflexivity|].
  intros out; apply only_bind; [apply only_lift|intros text].
  destruct (isspace text || str_eqb text []); apply only_ret.
Qed.

Lemma folder_ignored_paths_expected (h : host) folder :
  only expected (folder_ignored_paths h folder).
Proof.
  unfold folder_ignored_paths, is_in_git_repo, parent_repo_path,
    subprocess_call, popen_read.
  repeat first
    [ apply only_ret | apply only_lift | apply repo_ignored_paths_expected
    | apply only_for_each; intros
    | apply only_bind; [|intros]
    | match goal with
      | |- only _ (if ?b then _ else _) => destruct b
      | |- only _ (match spawn ?h ?a ?c with _ => _ end) =>
          destruct (spawn h a c); reflexivity
      end ].
Qed.

Lemma all_ignored_paths_expected (h : host) :
  only expected (all_ignored_paths h).
Proof.
  unfold all_ignored_paths.
  apply only_bind; [|intros; apply only_ret].
  apply only_for_each; intros acc folder.
  apply only_bind;
    [apply folder_ignored_paths_expected|intros; apply only_ret].
Qed.

(** X15: A pass starts no process but the three git queries, the clean
    one always as the dry run [-ndX]; it writes no key but
    [binary_file_patterns] and saves no document but the preferences;
    and when it saves, that is the last thing it does, once. *)
Theorem X15_pass_asks_only (h : host) (s : settings) :
  (forall e,
      In e (snd (update_file_exclude_patterns h s)) ->
      (exists cwd,
          e = Spawn rev_parse_inside cwd
          \/ e = Spawn rev_parse_toplevel cwd
          \/ e = Spawn clean_ndX cwd)
      \/ (exists l, e = SettingsSet key l)
      \/ e = SaveSettings preferences)
  /\ exists t,
      forallb is_spawn t = true
      /\ (snd (update_file_exclude_patterns h s) = t
          \/ exists l,
              snd (update_file_exclude_patterns h s)
              = t ++ [SettingsSet key l; SaveSettings preferences]).
Proof.
  assert (Hcases : exists t,
             (forallb is_spawn t = true /\ forallb expected t = true)
             /\ (snd (update_file_exclude_patterns h s) = t
                 \/ exists l,
                     snd (update_file_exclude_patterns h s)
                     = t ++ [SettingsSet key l; SaveSettings preferences])).
  { pose proof (all_ignored_paths_spawns h) as Hs.
    pose proof (all_ignored_paths_expected h) as He.
    unfold only in Hs, He.
    destruct (update_file_exclude_patterns_pass h s)
      as [e t Ea|paths t e Ea Eb|paths t F D Ea Eb _|paths t F D Ea Eb _];
      rewrite Ea in Hs, He; cbn [snd] in *; exists t; split; auto.
    right; eexists; reflexivity. }
  destruct Hcases as (t & [Hs He] & Ht).
  split; [|exists t; auto].
  intros e Hin.
  assert (Hx : expected e = true).
  { destruct Ht as [E|(l & E)]; rewrite E in Hin.
    - rewrite forallb_forall in He; apply He, Hin.
    - apply in_app_iff in Hin; destruct Hin as [Hin|[<-|[<-|[]]]];
        [rewrite forallb_forall in He; apply He, Hin| |]; reflexivity. }
  destruct e as [argv cwd|k l|name]; cbn [expected] in Hx.
  - left; exists cwd.
    rewrite !orb_true_iff in Hx; destruct Hx as [[H|H]|H];
      apply argv_eqb_eq in H; subst; auto.
  - right; left; apply str_eqb_eq in Hx; subst; eauto.
  - right; right; apply str_eqb_eq in Hx; subst; reflexivity.
Qed.

Lemma X15_pass_asks_only_witness :
  (exists cwd,
      Spawn clean_ndX (u "/work/app/lib") = Spawn rev_parse_inside cwd
      \/ Spawn clean_ndX (u "/work/app/lib") = Spawn rev_parse_toplevel cwd
      \/ Spawn clean_ndX (u "/work/app/lib") = Spawn clean_ndX cwd)
  \/ (exists l, Spawn clean_ndX (u "/work/app/lib") = SettingsSet key l)
  \/ Spawn clean_ndX (u "/work/app/lib") = SaveSettings preferences.
Proof.
  destruct (X15_pass_asks_only scenario empty_settings) as [H _].
  apply H; right; left; reflexivity.
Defined.

(** ** Trees without the marker *)

Lemma walk_marker_free (h : host) (n : node) :
  marker_free n = true ->
  forall top t, In t (walk h top n) -> mem (u ".git") (snd (fst t)) = false.
Proof.
  induction n as [| |es IH] using node_induction; cbn [walk];
    try (intros _ top t Hin; destruct Hin; fail).
  intros Hmf top t Hin; simpl in Hmf.
  apply andb_true_iff in Hmf; destruct Hmf as [Hm Hall].
  apply negb_true_iff in Hm.
  destruct Hin as [<-|Hin]; [exact Hm|].
  apply in_flat_map in Hin; destruct Hin as (e & He & Ht).
  rewrite Forall_forall in IH; rewrite forallb_forall in Hall.
  eapply IH; [exact He|apply Hall, He|exact Ht].
Qed.

(** X16: A folder whose tree holds no directory and no link named
    [.git] has no repository for [find_git_repos]: a [.git] that is a
    plain file, as a submodule or a linked work tree has, does not count;
    nor does a folder that cannot be listed. *)
Theorem X16_no_marker_no_repository (h : host) (folder : str) :
  match tree_at h folder with
  | Some n => marker_free n = true
  | None => True
  end ->
  find_git_repos h folder = [].
Proof.
  unfold find_git_repos, os_walk.
  destruct (tree_at h folder) as [n|]; [|reflexivity].
  intros Hm; pose proof (walk_marker_free h n Hm folder) as Hw.
  induction (walk h folder n) as [|[[root subs] files] l IH];
    [reflexivity|].
  cbn [flat_map].
  pose proof (Hw (root, subs, files) (or_introl eq_refl)) as E.
  cbn [fst snd] in E; rewrite E; cbn [app].
  apply IH; intros t Ht; apply Hw; right; exact Ht.
Qed.

(** A work tree whose [.git] is a file. *)
Lemma X16_no_marker_no_repository_witness :
  find_git_repos
    (posix_host (fun _ => false)
                (fun _ => Some (Dir [(u ".git", File);
                                     (u "src", Dir [(u "a.py", File)])]))
                [[u "/w"]] (fun _ _ => None))
    (u "/w") = [].
Proof.
  apply X16_no_marker_no_repository; reflexivity.
Defined.

(** ** The repository around a folder *)

Lemma lstrip_by_app_drop (p : char -> bool) (a b : str) :
  forallb p a = true -> lstrip_by p (a ++ b) = lstrip_by p b.
Proof.
  induction a as [|c a IH]; [reflexivity|]; cbn [forallb app lstrip_by].
  rewrite andb_true_iff; intros [-> H]; apply IH, H.
Qed.

Lemma strip_around (lead text tail : str) :
  forallb is_whitespace lead = true ->
  forallb is_whitespace tail = true ->
  text = [] \/ (starts_visibly text /\ ends_visibly text) ->
  strip (lead ++ text ++ tail) = text.
Proof.
  intros Hl Ht Hx; unfold strip; rewrite lstrip_by_app_drop by exact Hl.
  destruct Hx as [->|[(c & r & -> & Hc) (a & d & E & Hd)]].
  - cbn [app].
    assert (E : lstrip_by is_whitespace tail = []).
    { clear Hl; induction tail as [|c tl IH]; [reflexivity|].
      cbn [forallb] in Ht; apply andb_true_iff in Ht.
      destruct Ht as [Hc Ht]; cbn [lstrip_by]; rewrite Hc; apply IH, Ht. }
    rewrite E; reflexivity.
  - cbn [app lstrip_by]; rewrite Hc.
    change (c :: r ++ tail) with ((c :: r) ++ tail).
    rewrite rstrip_by_app_drop by exact Ht.
    rewrite E; apply rstrip_by_last, Hd.
Qed.

(** X17: [parent_repo_path] takes what the top-level query printed,
    without the white space around it, and makes it absolute; it does
    not look at the exit status, so a query that printed nothing gives
    the absolute form of the empty path. *)
Theorem X17_parent_repo_path_trims
        (h : host) (folder : str) proc (lead text tail : str) :
  spawn h rev_parse_toplevel folder = Some proc ->
  utf8_decode Ignore (stdout proc) = Ok (lead ++ text ++ tail) ->
  forallb is_whitespace lead = true ->
  forallb is_whitespace tail = true ->
  text = [] \/ (starts_visibly text /\ ends_visibly text) ->
  parent_repo_path h folder
  = (Ok (path_abspath h text), [Spawn rev_parse_toplevel folder]).
Proof.
  intros Hs Hd Hl Ht Hx; unfold parent_repo_path.
  rewrite (popen_read_Some _ _ _ Hs), bind_Ok_l, Hd, bind_lift_Ok.
  rewrite (@strip_around lead text tail Hl Ht Hx); reflexivity.
Qed.

Lemma X17_parent_repo_path_trims_witness :
  parent_repo_path two_roots (u "/r/a")
  = (Ok (u "/r"), [Spawn rev_parse_toplevel (u "/r/a")]).
Proof.
  apply (@X17_parent_repo_path_trims
           two_roots (u "/r/a")
           {| exit_status := 0; stdout := output_lines [u "/r"] |}
           [] (u "/r") [newline]); try reflexivity.
  right; split; [exists 47, (u "r")|exists (u "/"), 114]; split; reflexivity.
Defined.

(** ** Open folders *)

Lemma open_folders_NoDup (h : host) : NoDup (open_folders h).
Proof.
  unfold open_folders.
  assert (G : forall ws acc,
             NoDup acc ->
             NoDup (fold_left (fun acc fs => set_update acc fs) ws acc)).
  { induction ws as [|w ws IH]; intros acc Ha; [exact Ha|].
    cbn [fold_left]; apply IH, set_update_NoDup, Ha. }
  apply G; constructor.
Qed.

(** X18: With no folder open in any window a pass does nothing at all:
    it starts no process, stores and saves nothing, and does not
    raise, with or without git on the machine. *)
Theorem X18_no_folder_no_work (h : host) (s : settings) :
  iter_permutes h ->
  (forall folders, In folders (windows h) -> folders = []) ->
  update_file_exclude_patterns h s = (Ok s, []).
Proof.
  intros Hp Hw.
  assert (Ho : open_folders h = []).
  { destruct (open_folders h) as [|f fs] eqn:E; [reflexivity|exfalso].
    assert (Hin : In f (open_folders h)) by (rewrite E; left; reflexivity).
    apply open_folders_In in Hin; destruct Hin as (folders & Hf & Hx).
    rewrite (Hw folders Hf) in Hx; destruct Hx. }
  apply update_nothing.
  rewrite all_ignored_paths_gather, Ho, (iter_permutes_nil Hp).
  cbn [for_each]; rewrite bind_ret_l, (iter_permutes_nil Hp); reflexivity.
Qed.

Lemma X18_no_folder_no_work_witness :
  update_file_exclude_patterns
    (posix_host (fun _ => false) (fun _ => None) [[]; []] (fun _ _ => None))
    q_stored
  = (Ok q_stored, []).
Proof.
  apply X18_no_folder_no_work; [apply posix_host_permutes|].
  intros folders [<-|[<-|[]]]; reflexivity.
Defined.

(** X19: A folder that is open in several windows is gathered once: what
    [all_ignored_paths] does is what [folder_ignored_paths] does for
    each open folder, one after the other, over a list that names every
    open folder once. *)
Theorem X19_each_folder_once (h : host) l t :
  iter_permutes h ->
  all_ignored_paths h = (Ok l, t) ->
  exists folders,
    NoDup folders
    /\ (forall f, In f folders <->
                  exists w, In w (windows h) /\ In f w)
    /\ t = flat_map (fun f => snd (folder_ignored_paths h f)) folders
    /\ forall f, In f folders ->
                 exists ps, fst (folder_ignored_paths h f) = Ok ps.
Proof.
  intros Hp Ha.
  destruct (all_ignored_paths_folders Hp Ha) as (_ & Hf & Ht).
  exists (iter_order h (open_folders h)); split; [|split; [|split]].
  - apply (iter_permutes_NoDup Hp), open_folders_NoDup.
  - intros f; rewrite (@iter_permutes_In h _ _ Hp); apply open_folders_In.
  - exact Ht.
  - intros f Hin; apply (proj1 (@iter_permutes_In h _ _ Hp)) in Hin.
    destruct (Hf f Hin) as (ps & tx & E & _).
    exists ps; rewrite E; reflexivity.
Qed.

(** The folder [/work/app] open in two windows. *)
Lemma X19_each_folder_once_witness :
  exists folders,
    NoDup folders
    /\ snd (all_ignored_paths
              (posix_host (path_isdir scenario) (tree_at scenario)
                          [[u "/work/app"]; [u "/work/app"]]
                          (spawn scenario)))
       = flat_map
           (fun f =>
              snd (folder_ignored_paths
                     (posix_host (path_isdir scenario) (tree_at scenario)
                                 [[u "/work/app"]; [u "/work/app"]]
                                 (spawn scenario)) f))
           folders.
Proof.
  destruct (@X19_each_folder_once
              (posix_host (path_isdir scenario) (tree_at scenario)
                          [[u "/work/app"]; [u "/work/app"]]
                          (spawn scenario))
              [u "/work/app/lib/build"; u "/work/app/lib/out.log"]
              (snd (all_ignored_paths
                      (posix_host (path_isdir scenario) (tree_at scenario)
                                  [[u "/work/app"]; [u "/work/app"]]
                                  (spawn scenario))))
              (posix_host_permutes _ _ _ _) eq_refl)
    as (folders & Hn & _ & Ht & _).
  exists folders; split; [exact Hn|exact Ht].
Defined.

(** ** The order of what a pass appends *)

Lemma all_ignored_paths_iterated (h : host) paths t :
  all_ignored_paths h = (Ok paths, t) ->
  exists all,
    NoDup all
    /\ paths = iter_order h all
    /\ forall p,
        In p all <->
        exists f ps tf,
          In f (iter_order h (open_folders h))
          /\ folder_ignored_paths h f = (Ok ps, tf)
          /\ In p ps.
Proof.
  intros Ha; rewrite all_ignored_paths_gather in Ha.
  destruct (for_each (iter_order h (open_folders h)) []
                     (gather (folder_ignored_paths h)))
    as [[all|e] tc] eqn:El; [|discriminate].
  rewrite bind_Ok_l in Ha; cbn [fst snd ret] in Ha; injection Ha as <- _.
  destruct (for_each_gather _ _ _ El) as (Hn & _ & Hin).
  exists all; split; [apply Hn; constructor|split; [reflexivity|]].
  intros p; rewrite Hin; split; [intros [[]|H]; exact H|auto].
Qed.

Lemma rotating_permutes : iter_permutes rotating.
Proof.
  intros [|x l]; [constructor|].
  apply Permutation_sym, Permutation_cons_append.
Qed.

(** C6: What was stored before a pass is still there after it, at the
    front and in its order, whether or not the pass saved.  When it
    saved, what follows is what the pass put on the file list: the
    patterns of the ignored paths that are no directory, in the order in
    which Python yields the set that [all_ignored_paths] gathered over
    the open folders.  That order is the machine's, not the order in
    which git named the paths. *)
Theorem C6_stored_entries_kept (h : host) (s : settings) :
  exists appended,
    get_patterns (stored_after h s) = get_patterns s ++ appended
    /\ (changed h s = false -> stored_after h s = s /\ appended = [])
    /\ (changed h s = true ->
        exists all paths t,
          all_ignored_paths h = (Ok paths, t)
          /\ NoDup all
          /\ (forall p,
                 In p all <->
                 exists f ps tf,
                   In f (iter_order h (open_folders h))
                   /\ folder_ignored_paths h f = (Ok ps, tf)
                   /\ In p ps)
          /\ paths = iter_order h all
          /\ Forall2 (fun p x => to_sublime_format h p = Ok x)
                     (filter (fun p => negb (path_isdir h p)) paths)
                     appended).
Proof.
  destruct (pass_outside h s)
    as [(E1 & E2 & _)|(paths & t & F & D & Ea & Eb & _ & E1 & E2)].
  - exists []; rewrite E1, E2, app_nil_r.
    split; [reflexivity | split; [auto | discriminate]].
  - exists F; rewrite E1, E2; cbn [get_patterns binary_file_patterns].
    split; [reflexivity | split; [discriminate | intros _]].
    destruct (all_ignored_paths_iterated h Ea) as (all & Hn & Hp & Hin).
    exists all, paths, t; repeat split; auto.
    + apply Hin.
    + apply Hin.
    + eapply appended_by_files; eassumption.
Qed.

(** On the rotating machine, with [keep.me] stored beforehand: git names
    [a], [b], [c]; the pass appends [c], [a], [b]. *)
Lemma C6_stored_entries_kept_witness :
  changed rotating kept = true
  /\ exists appended,
      get_patterns (stored_after rotating kept) = [u "keep.me"] ++ appended
      /\ appended = [u "/r/c"; u "/r/a"; u "/r/b"]
      /\ exists all paths t,
          all_ignored_paths rotating = (Ok paths, t)
          /\ NoDup all
          /\ paths = rotate all
          /\ Forall2 (fun p x => to_sublime_format rotating p = Ok x)
                     (filter (fun p => negb (path_isdir rotating p)) paths)
                     appended.
Proof.
  assert (Hc : changed rotating kept = true) by (vm_compute; reflexivity).
  split; [exact Hc|].
  destruct (C6_stored_entries_kept rotating kept)
    as (appended & H1 & _ & H3).
  destruct (H3 Hc) as (all & paths & t & Ea & Hn & _ & Hp & Hf).
  exists appended; split; [exact H1|split].
  - change (get_patterns (stored_after rotating kept))
      with ([u "keep.me"] ++ [u "/r/c"; u "/r/a"; u "/r/b"]) in H1.
    apply app_inv_head in H1; symmetry; exact H1.
  - exists all, paths, t; auto.
Defined.

(** Git names [a], [b], [c]; the list saved holds them as [c], [a], [b]
    after what was stored: the order is that of the sets. *)
Lemma C6_order_is_not_discovery :
  iter_permutes rotating
  /\ fst (repo_ignored_paths rotating (u "/r"))
     = Ok [u "/r/a"; u "/r/b"; u "/r/c"]
  /\ changed rotating kept = true
  /\ get_patterns (stored_after rotating kept)
     = [u "keep.me"; u "/r/c"; u "/r/a"; u "/r/b"]
  /\ get_patterns (stored_after rotating kept)
     <> [u "keep.me"] ++ [u "/r/a"; u "/r/b"; u "/r/c"].
Proof.
  split; [exact rotating_permutes|].
  split; [reflexivity|split; [reflexivity|split; [reflexivity|]]].
  vm_compute; discriminate.
Qed.

(** ** The marker in the entries *)



